(** * FOLD frame codec: a shallow embedding of [fold/core/fractal.py]
    and of the decoding entry point of [fold/core/decoder.py], with the
    properties of the codec proved over it.

    Python values are modelled as follows:
    - [bytes] is [list byte];
    - a [str] is [list ascii] (bit strings are strings over the
      characters 0 and 1, exactly as the source builds them);
    - Python integers are [Z]; lengths and indices that are always
      non-negative are [nat];
    - a frame, a numpy array of shape (height, width, 3), is a list of
      rows of pixels, a pixel being a triple of channel values;
    - a raised exception is the [Err] branch of [result]. *)

From Stdlib Require Import ZArith Lia List Ascii String DecimalString.
From Stdlib.Strings Require Import Byte.
From stdpp Require Import base tactics list.
Import ListNotations.

Local Open Scope Z_scope.
Local Open Scope nat_scope.

(** ** Exceptions and the error monad *)

Inductive exn : Type :=
| ValueError (msg : string)
| IndexError (msg : string)
| FileCorruptionError (msg : string)
| DecodingError (msg : string).

Inductive result (A : Type) : Type :=
| Ok (a : A)
| Err (e : exn).
Arguments Ok {A} a.
Arguments Err {A} e.

Definition bind {A B} (r : result A) (k : A -> result B) : result B :=
  match r with
  | Ok a => k a
  | Err e => Err e
  end.

Notation "'let*' x ':=' r 'in' k" := (bind r (fun x => k))
  (at level 10, x name, r at level 100, k at level 200).

(** The class of an exception, and the text [str(e)] gives. *)
Inductive exn_class : Type :=
  CValueError | CIndexError | CFileCorruptionError | CDecodingError.

Definition class_of (e : exn) : exn_class :=
  match e with
  | ValueError _ => CValueError
  | IndexError _ => CIndexError
  | FileCorruptionError _ => CFileCorruptionError
  | DecodingError _ => CDecodingError
  end.

Definition str_of (e : exn) : string :=
  match e with
  | ValueError m | IndexError m | FileCorruptionError m | DecodingError m => m
  end.

(** [for x in xs: acc = body(acc, x)], stopping at the first exception. *)
Fixpoint foldM {A B} (f : A -> B -> result A) (xs : list B) (acc : A) : result A :=
  match xs with
  | [] => Ok acc
  | x :: xs' => let* acc' := f acc x in foldM f xs' acc'
  end.

(** A generator expression consumed in order: the first exception ends it. *)
Fixpoint mapM {A B} (f : A -> result B) (xs : list A) : result (list B) :=
  match xs with
  | [] => Ok []
  | x :: xs' => let* y := f x in let* ys := mapM f xs' in Ok (y :: ys)
  end.

(** ** The Python built-ins the codec uses *)

Module Py.

(** [s[a:b]] for [0 <= a <= b]. *)
Definition slice {A} (a b : nat) (s : list A) : list A := take (b - a) (drop a s).

(** [s.ljust(n, fill)]. *)
Definition ljust (n : nat) (fill : ascii) (s : list ascii) : list ascii :=
  s ++ replicate (n - length s) fill.

(** [range(0, stop, step)] for non-negative arguments; CPython computes
    the number of elements as [1 + (stop - 1) / step] when [stop > 0]. *)
Definition range0 (stop step : nat) : result (list nat) :=
  match step with
  | O => Err (ValueError "range() arg 3 must not be zero")
  | _ =>
      let n := match stop with O => O | _ => S ((stop - 1) / step) end in
      Ok (map (fun k => k * step) (seq 0 n))
  end.

(** The binary digits of a positive number, most significant first. *)
Fixpoint pos_bin (p : positive) : list ascii :=
  match p with
  | xH => ["1"%char]
  | xO q => pos_bin q ++ ["0"%char]
  | xI q => pos_bin q ++ ["1"%char]
  end.

Definition bin_digits (n : Z) : list ascii :=
  match n with
  | Z0 => ["0"%char]
  | Zpos p | Zneg p => pos_bin p
  end.

(** [format(n, '0<w>b')]: binary digits, zero-filled on the left up to a
    minimum width [w] (the sign, if any, counts in the width and comes
    first). The result is longer than [w] when [n] needs more digits. *)
Definition format_b (w : nat) (n : Z) : list ascii :=
  let d := bin_digits n in
  if (n <? 0)%Z then "-"%char :: replicate (w - 1 - length d) "0"%char ++ d
  else replicate (w - length d) "0"%char ++ d.

(** [ord(c)] and [chr(n)] on the one-byte characters that occur here. *)
Definition ord (c : ascii) : Z := Z.of_N (N_of_ascii c).

Definition chr (n : Z) : result ascii :=
  if ((0 <=? n) && (n <? 256))%Z then Ok (ascii_of_N (Z.to_N n))
  else Err (ValueError "chr() arg not in range").

Definition bit_value (c : ascii) : option Z :=
  if Ascii.eqb c "0" then Some 0%Z
  else if Ascii.eqb c "1" then Some 1%Z
  else None.

Fixpoint int2_acc (acc : Z) (s : list ascii) : option Z :=
  match s with
  | [] => Some acc
  | c :: t =>
      match bit_value c with
      | Some d => int2_acc (2 * acc + d)%Z t
      | None => None
      end
  end.

Definition invalid_literal (s : list ascii) : exn :=
  ValueError ("invalid literal for int() with base 2: '"
              ++ string_of_list_ascii s ++ "'").

(** [int(s, 2)] on strings of binary digits. The empty string is an
    invalid literal. The codec only ever passes strings made of the
    characters 0 and 1 (they come from [_fractal_frame_to_bits]); the
    other literal forms Python accepts (sign, prefix, underscores, blanks)
    are not modelled and any other character is reported as invalid. *)
Definition int2 (s : list ascii) : result Z :=
  match s with
  | [] => Err (invalid_literal s)
  | _ =>
      match int2_acc 0 s with
      | Some v => Ok v
      | None => Err (invalid_literal s)
      end
  end.

(** An element of [bytes(...)]: an integer in [range(256)]. *)
Definition to_byte (n : Z) : result byte :=
  if ((0 <=? n) && (n <? 256))%Z then
    match Byte.of_N (Z.to_N n) with
    | Some b => Ok b
    | None => Err (ValueError "bytes must be in range(0, 256)")
    end
  else Err (ValueError "bytes must be in range(0, 256)").

Definition byte_val (b : byte) : Z := Z.of_N (Byte.to_N b).

(** [zlib.crc32]: the CRC-32 of zlib (reflected polynomial EDB88320,
    initial value and final complement FFFFFFFF), one bit at a time. *)
Definition crc_poly : Z := 0xEDB88320.
Definition crc_mask : Z := 0xFFFFFFFF.

Definition crc_shift (c : Z) : Z :=
  Z.lxor (Z.shiftr c 1) (if Z.odd c then crc_poly else 0%Z).

Definition crc_update (c : Z) (b : byte) : Z :=
  Nat.iter 8 crc_shift (Z.lxor c (byte_val b)).

Definition crc32 (data : list byte) : Z :=
  Z.lxor (fold_left crc_update data crc_mask) crc_mask.

End Py.

(** ** [fold/core/fractal.py] *)

Definition pixel : Type := (Z * Z * Z)%type.
Abbreviation frame := (list (list pixel)).

Record FractalEncoder : Type := mkFractalEncoder {
  width : nat;
  height : nat;
  pixels_per_frame : nat
}.

Definition FractalEncoder_init (w h : nat) : FractalEncoder :=
  {| width := w; height := h; pixels_per_frame := w * h |}.

Definition magic : list ascii := list_ascii_of_string "FOLD".

Definition _prepare_bit_string (self : FractalEncoder) (data : list byte) : list ascii :=
  let checksum := Py.crc32 data in
  let length := Z.of_nat (length data) in
  let magic_bits := flat_map (fun c => Py.format_b 8 (Py.ord c)) magic in
  let length_bits := Py.format_b 32 length in
  let checksum_bits := Py.format_b 32 checksum in
  let data_bits := flat_map (fun b => Py.format_b 8 (Py.byte_val b)) data in
  magic_bits ++ length_bits ++ checksum_bits ++ data_bits.

Definition msg_bad_magic : string := "Invalid FOLD file format".
Definition msg_incomplete : string := "Incomplete data".
Definition msg_checksum : string := "Data corruption detected - checksum mismatch".

Definition list_ascii_eqb (a b : list ascii) : bool :=
  String.eqb (string_of_list_ascii a) (string_of_list_ascii b).

Definition _parse_bit_string (self : FractalEncoder) (bit_string : list ascii)
  : result (list byte) :=
  let magic_bits := take 32 bit_string in
  let length_bits := Py.slice 32 64 bit_string in
  let checksum_bits := Py.slice 64 96 bit_string in
  let data_bits := drop 96 bit_string in
  let* idx := Py.range0 32 8 in
  let* got := mapM (fun i => let* n := Py.int2 (Py.slice i (i + 8) magic_bits) in Py.chr n) idx in
  if negb (list_ascii_eqb got magic) then Err (ValueError msg_bad_magic) else
  let* length := Py.int2 length_bits in
  let expected_data_bits := (length * 8)%Z in
  if (Z.of_nat (List.length data_bits) <? expected_data_bits)%Z
  then Err (ValueError msg_incomplete) else
  let actual_data_bits := take (Z.to_nat expected_data_bits) data_bits in
  let* idx' := Py.range0 (List.length actual_data_bits) 8 in
  let* data_bytes := mapM (fun i => let* n := Py.int2 (Py.slice i (i + 8) actual_data_bits) in
                               Py.to_byte n) idx' in
  let calculated_checksum := Py.crc32 data_bytes in
  let* expected_checksum := Py.int2 checksum_bits in
  if negb (calculated_checksum =? expected_checksum)%Z
  then Err (ValueError msg_checksum)
  else Ok data_bytes.

(** [frame[y, x] = value], for an index inside the array. *)
Definition set_px (f : frame) (y x : nat) (value : pixel) : frame :=
  alter (fun row => <[x := value]> row) y f.

(** [str(n)] for a number that is not negative. *)
Definition nat_str (n : nat) : string := NilZero.string_of_uint (Nat.to_uint n).

(** The [IndexError] numpy raises for index [i] on an axis of [size]
    entries. *)
Definition index_error (i axis size : nat) : exn :=
  IndexError ("index " ++ nat_str i ++ " is out of bounds for axis " ++ nat_str axis
              ++ " with size " ++ nat_str size).

(** [frame[y, x]] on an array of three channels; numpy raises [IndexError]
    outside the array, for the row first. Arrays with another number of
    channels are the subject of [_fractal_frame_to_bits_nd] below. *)
Definition get_px (f : frame) (y x : nat) : result pixel :=
  match f !! y with
  | None => Err (index_error y 0 (length f))
  | Some row =>
      match row !! x with
      | None => Err (index_error x 1 (length row))
      | Some p => Ok p
      end
  end.

(** [255 if bit == '1' else 0] *)
Definition channel_of_bit (c : ascii) : Z :=
  if Ascii.eqb c "1" then 255%Z else 0%Z.

(** [padded_bits[i]]; every use is guarded by [bit_index + 2 < len(padded_bits)]. *)
Definition char_at (s : list ascii) (i : nat) : ascii := nth i s "0"%char.

Definition _bits_to_fractal_frame (self : FractalEncoder) (bit_string : list ascii)
  : frame :=
  let total_bits := pixels_per_frame self * 3 in
  let padded_bits := Py.ljust total_bits "0" bit_string in
  let frame0 : frame := replicate (height self) (replicate (width self) (0, 0, 0)%Z) in
  fst (fold_left (fun st y =>
         fold_left (fun (st : frame * nat) x =>
           let (frame, bit_index) := st in
           if bit_index + 2 <? length padded_bits then
             let r_bit := char_at padded_bits bit_index in
             let g_bit := char_at padded_bits (bit_index + 1) in
             let b_bit := char_at padded_bits (bit_index + 2) in
             let r := channel_of_bit r_bit in
             let g := channel_of_bit g_bit in
             let b := channel_of_bit b_bit in
             (set_px frame y x (r, g, b), bit_index + 3)
           else
             (set_px frame y x (0, 0, 0)%Z, bit_index))
         (seq 0 (width self)) st)
       (seq 0 (height self)) (frame0, 0)).

(** ['1' if v >= 128 else '0'] *)
Definition threshold (v : Z) : ascii :=
  if (128 <=? v)%Z then "1"%char else "0"%char.

Definition pixel_bits (p : pixel) : list ascii :=
  let '(r, g, b) := p in [threshold r; threshold g; threshold b].

Definition _fractal_frame_to_bits (self : FractalEncoder) (f : frame)
  : result (list ascii) :=
  foldM (fun bit_string y =>
     foldM (fun bit_string x =>
        let* p := get_px f y x in
        Ok (bit_string ++ pixel_bits p))
       (seq 0 (width self)) bit_string)
    (seq 0 (height self)) [].

(** The generator, consumed to the end as [list(...)] does in
    [fold.core.encoder.store]. The [range] call is the first thing that can
    raise, so an exception means that no frame was produced. *)
Definition encode_data_to_pixels (self : FractalEncoder) (data : list byte)
  : result (list frame) :=
  let bit_string := _prepare_bit_string self data in
  let bits_per_frame := pixels_per_frame self * 3 in
  let* starts := Py.range0 (length bit_string) bits_per_frame in
  Ok (map (fun i => _bits_to_fractal_frame self
                      (Py.slice i (i + bits_per_frame) bit_string)) starts).

Definition frames_to_bits (self : FractalEncoder) (frames : list frame)
  : result (list ascii) :=
  foldM (fun bit_string f =>
           let* chunk_bits := _fractal_frame_to_bits self f in
           Ok (bit_string ++ chunk_bits)) frames [].

Definition decode_pixels_to_data (self : FractalEncoder) (frames : list frame)
  : result (list byte) :=
  let* bit_string := frames_to_bits self frames in
  _parse_bit_string self bit_string.

(** ** [fold/core/decoder.py] *)

(** [frames[0].shape[:2]] *)
Definition shape2 (f : frame) : nat * nat :=
  (length f, match f with [] => 0 | row :: _ => length row end).

(** What [cv2.VideoCapture(video_path)] is for the decoder: whether the
    file could be opened, and the frames [cap.read()] hands out one after
    the other, channels in OpenCV's order B, G, R, before it answers
    [ret = False]. *)
Record VideoCapture : Type := mkVideoCapture {
  isOpened : bool;
  read_stream : list frame
}.

(** [cv2.cvtColor(frame, cv2.COLOR_BGR2RGB)]: the first and the third
    channel of every cell change places. *)
Definition cvtColor_BGR2RGB (f : frame) : frame :=
  map (map (fun '(b, g, r) => (r, g, b))) f.

(** [_read_video_frames], from the capture on. Whatever the body raises,
    its own [DecodingError] and [FileCorruptionError] included, is caught
    by [except Exception] and raised again as a [DecodingError]. *)
Definition _read_video_frames (cap : VideoCapture) : result (list frame) :=
  let body : result (list frame) :=
    if negb (isOpened cap) then Err (DecodingError "Failed to open video file") else
    let frames :=
      fold_left (fun frames frame =>
                   let frame_rgb := cvtColor_BGR2RGB frame in
                   frames ++ [frame_rgb])
                (read_stream cap) [] in
    match frames with
    | [] => Err (FileCorruptionError "Video contains no decodable frames")
    | _ => Ok frames
    end in
  match body with
  | Ok frames => Ok frames
  | Err e => Err (DecodingError ("Failed to read video frames: " ++ str_of e))
  end.

(** [retrieve] for a path that [validate_file_path] accepted, from the
    capture OpenCV opens on it. The inner handler turns a [ValueError] of
    the codec into a [FileCorruptionError]; the outer one lets a
    [FileCorruptionError] through and wraps anything else in a
    [DecodingError]. *)
Definition retrieve (cap : VideoCapture) : result (list byte) :=
  let body : result (list byte) :=
    let* frames := _read_video_frames cap in
    match frames with
    | [] => Err (FileCorruptionError "No frames found in video")
    | f0 :: _ =>
        let (height, width) := shape2 f0 in
        let decoder := FractalEncoder_init width height in
        match decode_pixels_to_data decoder frames with
        | Ok data => Ok data
        | Err (ValueError m) =>
            Err (FileCorruptionError ("Data corruption detected: " ++ m))
        | Err e => Err e
        end
    end in
  match body with
  | Ok data => Ok data
  | Err (FileCorruptionError m) => Err (FileCorruptionError m)
  | Err e => Err (DecodingError ("Failed to decode video: " ++ str_of e))
  end.

(** ** [fold/core/encoder.py]: the conversion before writing *)

(** [cv2.cvtColor(frame, cv2.COLOR_RGB2BGR)] *)
Definition cvtColor_RGB2BGR (f : frame) : frame :=
  map (map (fun '(r, g, b) => (b, g, r))) f.

(** * Properties of the built-ins *)

(** A bit string: every character is 0 or 1. *)
Definition is_bit (c : ascii) : Prop := c = "0"%char \/ c = "1"%char.
Definition binary (s : list ascii) : Prop := Forall is_bit s.

Lemma binary_app s t : binary s -> binary t -> binary (s ++ t).
Proof. intros; by apply Forall_app_2. Qed.

Lemma binary_zeros n : binary (replicate n "0"%char).
Proof. apply Forall_replicate. by left. Qed.

Lemma binary_take n s : binary s -> binary (take n s).
Proof. apply Forall_take. Qed.

Lemma binary_drop n s : binary s -> binary (drop n s).
Proof. apply Forall_drop. Qed.

Lemma binary_flat_map {A} (f : A -> list ascii) (l : list A) :
  (forall a, binary (f a)) -> binary (flat_map f l).
Proof.
  intros Hf. induction l as [|a l IH]; simpl; [constructor|].
  by apply binary_app.
Qed.

Create HintDb bits.
#[local] Hint Resolve binary_app binary_zeros binary_take binary_drop : bits.

Module PyFacts.
Import Py.

Lemma binary_pos_bin p : binary (pos_bin p).
Proof.
  induction p; simpl; [apply binary_app; [done|] .. |];
    repeat constructor; by (left + right).
Qed.

Lemma pos_bin_nonempty p : pos_bin p <> [].
Proof. destruct p; simpl; try done; by destruct (pos_bin p). Qed.

Lemma format_b_nonneg w n :
  (0 <= n)%Z ->
  format_b w n = replicate (w - length (bin_digits n)) "0"%char ++ bin_digits n.
Proof.
  intros Hn. unfold format_b.
  destruct (Z.ltb_spec n 0); [lia | done].
Qed.

Lemma binary_bin_digits n : binary (bin_digits n).
Proof.
  destruct n; simpl; auto using binary_pos_bin.
  constructor; [by left | constructor].
Qed.

Lemma binary_format_b w n : (0 <= n)%Z -> binary (format_b w n).
Proof.
  intros Hn. rewrite format_b_nonneg by done.
  auto using binary_bin_digits with bits.
Qed.

(** The number of digits of [p] bounds it from both sides. *)
Lemma pos_bin_bounds p :
  (2 ^ Z.of_nat (length (pos_bin p) - 1) <= Z.pos p
   < 2 ^ Z.of_nat (length (pos_bin p)))%Z /\ 1 <= length (pos_bin p).
Proof.
  induction p as [q [IH1 IH2]|q [IH1 IH2]|]; simpl; [| |split; [lia|done]].
  - rewrite length_app; simpl.
    replace (length (pos_bin q) + 1 - 1) with (S (length (pos_bin q) - 1)) by lia.
    replace (length (pos_bin q) + 1) with (S (length (pos_bin q))) by lia.
    rewrite !Nat2Z.inj_succ, !Z.pow_succ_r by lia. lia.
  - rewrite length_app; simpl.
    replace (length (pos_bin q) + 1 - 1) with (S (length (pos_bin q) - 1)) by lia.
    replace (length (pos_bin q) + 1) with (S (length (pos_bin q))) by lia.
    rewrite !Nat2Z.inj_succ, !Z.pow_succ_r by lia. lia.
Qed.

Lemma bin_digits_length_le (w : nat) n :
  (0 <= n < 2 ^ Z.of_nat w)%Z -> 1 <= w -> length (bin_digits n) <= w.
Proof.
  intros [Hn0 Hn] Hw. destruct n as [|p|p]; simpl; [lia| |lia].
  destruct (pos_bin_bounds p) as [[Hlo _] Hlen].
  destruct (Nat.le_gt_cases (length (pos_bin p)) w) as [|Hgt]; [done|].
  exfalso.
  assert (2 ^ Z.of_nat w <= 2 ^ Z.of_nat (length (pos_bin p) - 1))%Z
    by (apply Z.pow_le_mono_r; lia).
  lia.
Qed.

(** With a value that fits, the field has exactly the minimum width. *)
Lemma format_b_length (w : nat) n :
  (0 <= n < 2 ^ Z.of_nat w)%Z -> 1 <= w -> length (format_b w n) = w.
Proof.
  intros Hn Hw. rewrite format_b_nonneg by lia.
  pose proof (bin_digits_length_le w n Hn Hw).
  rewrite length_app, length_replicate. lia.
Qed.

Lemma int2_acc_app acc s t :
  int2_acc acc (s ++ t) =
  match int2_acc acc s with Some v => int2_acc v t | None => None end.
Proof.
  revert acc. induction s as [|c s IH]; intros acc; simpl; [done|].
  destruct (bit_value c); [apply IH | done].
Qed.

Lemma int2_acc_pos_bin p : int2_acc 0 (pos_bin p) = Some (Z.pos p).
Proof.
  induction p as [q IH|q IH|]; simpl; [| |done];
    rewrite int2_acc_app, IH; simpl; f_equal; lia.
Qed.

Lemma int2_acc_zeros k s :
  int2_acc 0 (replicate k "0"%char ++ s) = int2_acc 0 s.
Proof. induction k as [|k IH]; simpl; [done | apply IH]. Qed.

Lemma int2_acc_bin_digits n : (0 <= n)%Z -> int2_acc 0 (bin_digits n) = Some n.
Proof.
  destruct n as [|p|p]; intros Hn; simpl; [done | apply int2_acc_pos_bin | lia].
Qed.

Lemma int2_of_acc s v : s <> [] -> int2_acc 0 s = Some v -> int2 s = Ok v.
Proof. intros Hs Hv. unfold int2. destruct s; [done|]. by rewrite Hv. Qed.

Lemma bin_digits_nonempty n : bin_digits n <> [].
Proof. destruct n; simpl; auto using pos_bin_nonempty. Qed.

(** [int(format(n, '0<w>b'), 2) == n] *)
Lemma int2_format_b w n : (0 <= n)%Z -> int2 (format_b w n) = Ok n.
Proof.
  intros Hn. apply int2_of_acc.
  - rewrite format_b_nonneg by done.
    pose proof (bin_digits_nonempty n). by destruct (replicate _ _), (bin_digits n).
  - rewrite format_b_nonneg, int2_acc_zeros by done.
    by apply int2_acc_bin_digits.
Qed.

Lemma byte_val_range b : (0 <= byte_val b < 256)%Z.
Proof.
  unfold byte_val. pose proof (Byte.to_N_bounded b). lia.
Qed.

Lemma to_byte_byte_val b : to_byte (byte_val b) = Ok b.
Proof.
  unfold to_byte. pose proof (byte_val_range b) as Hr.
  destruct (Z.leb_spec 0 (byte_val b)); [|lia].
  destruct (Z.ltb_spec (byte_val b) 256); [|lia]. simpl.
  unfold byte_val. by rewrite N2Z.id, Byte.of_to_N.
Qed.

Lemma format_byte_length b : length (format_b 8 (byte_val b)) = 8.
Proof.
  apply (format_b_length 8); [|lia]. pose proof (byte_val_range b).
  change (2 ^ Z.of_nat 8)%Z with 256%Z. lia.
Qed.

End PyFacts.

(** ** CRC-32: range, and detection of a change confined to one byte *)

Module CrcFacts.
Import Py.

Definition word32 (c : Z) : Prop := (0 <= c < 2 ^ 32)%Z.

Lemma lxor_word32 a b : word32 a -> word32 b -> word32 (Z.lxor a b).
Proof.
  unfold word32. intros [Ha0 Ha] [Hb0 Hb].
  assert (H0 : (0 <= Z.lxor a b)%Z) by (apply Z.lxor_nonneg; tauto).
  split; [done|].
  destruct (Z.eq_dec (Z.lxor a b) 0%Z) as [->|Hne]; [done|].
  apply Z.log2_lt_pow2; [lia|].
  pose proof (Z.log2_lxor a b Ha0 Hb0) as Hl.
  assert (Z.log2 a < 32)%Z.
  { destruct (Z.eq_dec a 0%Z) as [->|]; [done|]. apply Z.log2_lt_pow2; lia. }
  assert (Z.log2 b < 32)%Z.
  { destruct (Z.eq_dec b 0%Z) as [->|]; [done|]. apply Z.log2_lt_pow2; lia. }
  lia.
Qed.

Lemma word32_poly : word32 crc_poly.
Proof. unfold word32, crc_poly. lia. Qed.

Lemma word32_mask : word32 crc_mask.
Proof. unfold word32, crc_mask. lia. Qed.

Lemma word32_0 : word32 0%Z.
Proof. unfold word32. lia. Qed.

Lemma shiftr1_bound c : word32 c -> (0 <= Z.shiftr c 1 < 2 ^ 31)%Z.
Proof.
  unfold word32. intros [H0 H]. rewrite Z.shiftr_div_pow2 by lia.
  change (2 ^ 1)%Z with 2%Z. split; [apply Z.div_pos; lia|].
  apply Z.div_lt_upper_bound; lia.
Qed.

Lemma crc_shift_word32 c : word32 c -> word32 (crc_shift c).
Proof.
  intros Hc. unfold crc_shift. apply lxor_word32.
  - pose proof (shiftr1_bound c Hc). unfold word32. lia.
  - destruct (Z.odd c); [apply word32_poly | apply word32_0].
Qed.

(** One shift step is linear for exclusive or ... *)
Lemma crc_shift_lxor a b :
  crc_shift (Z.lxor a b) = Z.lxor (crc_shift a) (crc_shift b).
Proof.
  unfold crc_shift. rewrite Z.shiftr_lxor.
  assert (Hodd : Z.odd (Z.lxor a b) = xorb (Z.odd a) (Z.odd b))
    by (rewrite <- !Z.bit0_odd; apply Z.lxor_spec).
  rewrite Hodd. apply Z.bits_inj'. intros n Hn.
  destruct (Z.odd a), (Z.odd b); simpl;
    rewrite ?Z.lxor_spec, ?Z.testbit_0_l;
    destruct (Z.testbit (Z.shiftr a 1) n), (Z.testbit (Z.shiftr b 1) n),
      (Z.testbit crc_poly n); reflexivity.
Qed.

(** ... and only maps zero to zero: the polynomial has its top bit set,
    which the shifted value cannot cancel. *)
Lemma crc_shift_kernel c : word32 c -> crc_shift c = 0%Z -> c = 0%Z.
Proof.
  intros Hc H0. pose proof (shiftr1_bound c Hc) as Hs.
  unfold crc_shift in H0. destruct (Z.odd c) eqn:Hodd.
  - apply Z.lxor_eq in H0. unfold crc_poly in H0. lia.
  - rewrite Z.lxor_0_r in H0.
    rewrite Z.shiftr_div_pow2 in H0 by lia. change (2 ^ 1)%Z with 2%Z in H0.
    pose proof (Zmod_odd c) as Hm. rewrite Hodd in Hm.
    pose proof (Z.div_mod c 2). lia.
Qed.

Lemma crc_shift_inj a b :
  word32 a -> word32 b -> crc_shift a = crc_shift b -> a = b.
Proof.
  intros Ha Hb Heq. apply Z.lxor_eq, crc_shift_kernel.
  - by apply lxor_word32.
  - rewrite crc_shift_lxor, Heq. apply Z.lxor_nilpotent.
Qed.

Lemma iter_shift_word32 n c : word32 c -> word32 (Nat.iter n crc_shift c).
Proof. intros Hc. induction n; simpl; auto using crc_shift_word32. Qed.

Lemma iter_shift_inj n a b :
  word32 a -> word32 b ->
  Nat.iter n crc_shift a = Nat.iter n crc_shift b -> a = b.
Proof.
  intros Ha Hb. induction n as [|n IH]; simpl; [done|].
  intros Heq. apply IH. apply crc_shift_inj; auto using iter_shift_word32.
Qed.

Lemma word32_byte b : word32 (byte_val b).
Proof. pose proof (PyFacts.byte_val_range b). unfold word32. lia. Qed.

Lemma byte_val_inj a b : byte_val a = byte_val b -> a = b.
Proof.
  unfold byte_val. intros H. apply N2Z.inj in H.
  apply (f_equal Byte.of_N) in H. rewrite !Byte.of_to_N in H. congruence.
Qed.

Lemma crc_update_eq c b :
  crc_update c b = Nat.iter 8 crc_shift (Z.lxor c (byte_val b)).
Proof. reflexivity. Qed.

Lemma crc_update_word32 c b : word32 c -> word32 (crc_update c b).
Proof.
  intros Hc. rewrite crc_update_eq.
  apply iter_shift_word32, lxor_word32; auto using word32_byte.
Qed.

Lemma lxor_cancel_r a b c : Z.lxor a c = Z.lxor b c -> a = b.
Proof.
  intros H. apply (f_equal (fun x => Z.lxor x c)) in H.
  by rewrite !Z.lxor_assoc, !Z.lxor_nilpotent, !Z.lxor_0_r in H.
Qed.

Lemma lxor_cancel_l a b c : Z.lxor c a = Z.lxor c b -> a = b.
Proof. rewrite !(Z.lxor_comm c). apply lxor_cancel_r. Qed.

(** The state after a byte determines the state before it ... *)
Lemma crc_update_inj_state c c' b :
  word32 c -> word32 c' -> crc_update c b = crc_update c' b -> c = c'.
Proof.
  intros Hc Hc' Heq. rewrite !crc_update_eq in Heq.
  apply (lxor_cancel_r _ _ (byte_val b)).
  apply (iter_shift_inj 8); auto using lxor_word32, word32_byte.
Qed.

(** ... and, for a given state, the byte. *)
Lemma crc_update_inj_byte c b b' :
  word32 c -> crc_update c b = crc_update c b' -> b = b'.
Proof.
  intros Hc Heq. rewrite !crc_update_eq in Heq.
  apply byte_val_inj, (lxor_cancel_l _ _ c).
  apply (iter_shift_inj 8); auto using lxor_word32, word32_byte.
Qed.

(** The equations of [fold_left], for any step function: rewriting with
    them never unfolds the step. *)
Lemma fold_left_nil_eq {A B} (f : A -> B -> A) a : fold_left f [] a = a.
Proof. reflexivity. Qed.

Lemma fold_left_cons_eq {A B} (f : A -> B -> A) b l a :
  fold_left f (b :: l) a = fold_left f l (f a b).
Proof. reflexivity. Qed.

Lemma fold_update_word32 data c :
  word32 c -> word32 (fold_left crc_update data c).
Proof.
  revert c. induction data as [|b data IH]; intros c Hc.
  - rewrite fold_left_nil_eq. exact Hc.
  - rewrite fold_left_cons_eq. apply IH, crc_update_word32, Hc.
Qed.

Lemma fold_update_inj data c c' :
  word32 c -> word32 c' ->
  fold_left crc_update data c = fold_left crc_update data c' -> c = c'.
Proof.
  revert c c'. induction data as [|b data IH]; intros c c' Hc Hc' Heq.
  - rewrite !fold_left_nil_eq in Heq. exact Heq.
  - rewrite !fold_left_cons_eq in Heq.
    apply (crc_update_inj_state c c' b Hc Hc').
    apply IH; [apply crc_update_word32, Hc | apply crc_update_word32, Hc' | exact Heq].
Qed.

Lemma crc32_eq data :
  crc32 data = Z.lxor (fold_left crc_update data crc_mask) crc_mask.
Proof. reflexivity. Qed.

Lemma crc32_range data : (0 <= crc32 data < 2 ^ 32)%Z.
Proof.
  rewrite crc32_eq. apply lxor_word32; [|apply word32_mask].
  apply fold_update_word32, word32_mask.
Qed.

(** Two payloads that differ in exactly one byte have different CRCs. *)
Lemma crc32_one_byte pre b b' post :
  b <> b' -> crc32 (pre ++ b :: post) <> crc32 (pre ++ b' :: post).
Proof.
  intros Hne Heq. rewrite !crc32_eq in Heq. apply lxor_cancel_r in Heq.
  rewrite !fold_left_app, !fold_left_cons_eq in Heq.
  pose proof (fold_update_word32 pre crc_mask word32_mask) as Hpre.
  apply Hne, (crc_update_inj_byte (fold_left crc_update pre crc_mask) b b' Hpre).
  apply (fold_update_inj post); [apply crc_update_word32, Hpre .. | exact Heq].
Qed.

End CrcFacts.

(** ** One frame: writing bits and reading them back *)

(** The pixel [_bits_to_fractal_frame] writes for the three bits at [i]. *)
Definition pixel_at (padded_bits : list ascii) (i : nat) : pixel :=
  (channel_of_bit (char_at padded_bits i),
   channel_of_bit (char_at padded_bits (i + 1)),
   channel_of_bit (char_at padded_bits (i + 2))).

(** The body of the inner loop of [_bits_to_fractal_frame]. *)
Definition cell_step (padded_bits : list ascii) (y : nat) (st : frame * nat) (x : nat)
  : frame * nat :=
  let (frame, bit_index) := st in
  if bit_index + 2 <? length padded_bits
  then (set_px frame y x (pixel_at padded_bits bit_index), bit_index + 3)
  else (set_px frame y x (0, 0, 0)%Z, bit_index).

Lemma get_set_px_eq (f : frame) y x v row :
  f !! y = Some row -> x < length row -> get_px (set_px f y x v) y x = Ok v.
Proof.
  intros Hy Hx. unfold get_px, set_px.
  rewrite list_lookup_alter_eq, Hy. simpl.
  by rewrite list_lookup_insert_eq.
Qed.

Lemma get_set_px_ne (f : frame) y x v y' x' :
  y <> y' \/ x <> x' -> get_px (set_px f y x v) y' x' = get_px f y' x'.
Proof.
  intros Hne. unfold get_px, set_px. rewrite length_alter.
  destruct (decide (y = y')) as [->|Hy].
  - rewrite list_lookup_alter_eq. destruct (f !! y') as [row|]; simpl; [|done].
    rewrite length_insert, list_lookup_insert_ne; [done | tauto].
  - by rewrite list_lookup_alter_ne.
Qed.

Lemma cell_index_inj w y x y' x' :
  x < w -> x' < w -> y * w + x = y' * w + x' -> y = y' /\ x = x'.
Proof.
  intros Hx Hx' Heq.
  assert (y = y'); [|subst; lia].
  destruct (Nat.lt_trichotomy y y') as [Hlt|[Heq'|Hgt]]; [|done|]; exfalso; nia.
Qed.

Section OneFrame.
Variables w h : nat.
Local Abbreviation self := (FractalEncoder_init w h).

(** An array of shape (h, w, 3). *)
Definition shaped (f : frame) : Prop :=
  length f = h /\ Forall (fun row => length row = w) f.

Lemma shaped_set_px f y x v : shaped f -> shaped (set_px f y x v).
Proof.
  intros [Hlen Hrows]. split; unfold set_px.
  - by rewrite length_alter.
  - apply Forall_alter; [done|]. intros row _ Hrow. by rewrite length_insert.
Qed.

Lemma shaped_get f y x :
  shaped f -> y < h -> x < w -> exists p, get_px f y x = Ok p.
Proof.
  intros [Hlen Hrows] Hy Hx. unfold get_px.
  destruct (lookup_lt_is_Some_2 f y) as [row Hrow]; [lia|].
  rewrite Hrow. pose proof (Forall_lookup_1 _ _ _ _ Hrows Hrow) as Hw.
  destruct (lookup_lt_is_Some_2 row x) as [p Hp]; [simpl in *; lia|].
  rewrite Hp. eauto.
Qed.

(** The state of the two loops after [k] cells, in row-major order. *)
Definition cells_done (padded_bits : list ascii) (k : nat) (st : frame * nat) : Prop :=
  snd st = 3 * k /\ shaped (fst st) /\
  forall y x, y < h -> x < w ->
    get_px (fst st) y x =
    Ok (if y * w + x <? k then pixel_at padded_bits (3 * (y * w + x))
        else (0, 0, 0)%Z).

Lemma cell_step_done padded k st y x :
  3 * (w * h) <= length padded -> y < h -> x < w -> k = y * w + x ->
  cells_done padded k st -> cells_done padded (S k) (cell_step padded y st x).
Proof.
  intros Hlen Hy Hx Hk (Hidx & Hsh & Hget). destruct st as [f bi]. simpl in *.
  assert (Hk' : k < w * h) by nia.
  unfold cell_step. destruct (Nat.ltb_spec (bi + 2) (length padded)); [|lia].
  split; [simpl; lia|]. split; [by apply shaped_set_px|]. simpl.
  intros y' x' Hy' Hx'.
  destruct (decide (y = y' /\ x = x')) as [[-> ->]|Hne].
  - destruct Hsh as [Hl Hrows].
    destruct (lookup_lt_is_Some_2 f y') as [row Hrow]; [lia|].
    pose proof (Forall_lookup_1 _ _ _ _ Hrows Hrow) as Hw. simpl in Hw.
    rewrite (get_set_px_eq f y' x' _ row) by (done || lia).
    destruct (Nat.ltb_spec (y' * w + x') (S k)); [|lia].
    by rewrite Hidx, Hk.
  - rewrite get_set_px_ne by (destruct (decide (y = y')); [right; intros ->; tauto | by left]).
    rewrite Hget by done.
    assert (y' * w + x' <> k).
    { intros Heq. rewrite Hk in Heq.
      apply cell_index_inj in Heq; [|done..]. apply Hne. split; symmetry; tauto. }
    destruct (Nat.ltb_spec (y' * w + x') k), (Nat.ltb_spec (y' * w + x') (S k));
      (done || lia).
Qed.

Lemma row_done padded y n : forall a st,
  3 * (w * h) <= length padded -> y < h -> a + n <= w ->
  cells_done padded (y * w + a) st ->
  cells_done padded (y * w + a + n) (fold_left (cell_step padded y) (seq a n) st).
Proof.
  induction n as [|n IH]; intros a st Hlen Hy Han Hst; simpl.
  - by rewrite Nat.add_0_r.
  - replace (y * w + a + S n) with (y * w + S a + n) by lia.
    apply IH; [done | done | lia |].
    replace (y * w + S a) with (S (y * w + a)) by lia.
    apply cell_step_done; (done || lia).
Qed.

Lemma rows_done padded n : forall a st,
  3 * (w * h) <= length padded -> a + n <= h ->
  cells_done padded (a * w) st ->
  cells_done padded ((a + n) * w)
    (fold_left (fun st y => fold_left (cell_step padded y) (seq 0 w) st) (seq a n) st).
Proof.
  induction n as [|n IH]; intros a st Hlen Han Hst; simpl.
  - by rewrite Nat.add_0_r.
  - replace ((a + S n) * w) with ((S a + n) * w) by lia.
    apply IH; [done | lia |].
    replace (S a * w) with (a * w + 0 + w) by lia.
    apply row_done; [done | lia | lia |]. by rewrite Nat.add_0_r.
Qed.

Lemma blank_done padded :
  cells_done padded 0 (replicate h (replicate w (0, 0, 0)%Z), 0).
Proof.
  split; [done|]. split; simpl.
  - split; [apply length_replicate|].
    apply Forall_replicate, length_replicate.
  - intros y x Hy Hx. unfold get_px.
    by rewrite !lookup_replicate_2.
Qed.

(** What [_bits_to_fractal_frame] builds: an array of the right shape whose
    cell (y, x) holds the three bits at offset [3 * (y * w + x)]. *)
Lemma bits_to_frame_spec chunk :
  length chunk <= w * h * 3 ->
  let padded := Py.ljust (w * h * 3) "0" chunk in
  shaped (_bits_to_fractal_frame self chunk) /\
  forall y x, y < h -> x < w ->
    get_px (_bits_to_fractal_frame self chunk) y x
    = Ok (pixel_at padded (3 * (y * w + x))).
Proof.
  intros Hlen padded.
  assert (Hp : length padded = w * h * 3).
  { unfold padded, Py.ljust. rewrite length_app, length_replicate. lia. }
  pose proof (rows_done padded h 0 _ ltac:(lia) ltac:(lia) (blank_done padded))
    as (_ & Hsh & Hget).
  split; [exact Hsh|].
  intros y x Hy Hx. specialize (Hget y x Hy Hx).
  simpl in Hget. destruct (Nat.ltb_spec (y * w + x) (h * w)); [|nia].
  exact Hget.
Qed.

(** Reading: [_fractal_frame_to_bits] visits the cells in row-major order. *)
Lemma read_row (f : frame) (P : nat -> pixel) y n : forall a acc,
  (forall x, a <= x < a + n -> get_px f y x = Ok (P (y * w + x))) ->
  foldM (fun bit_string x =>
           let* p := get_px f y x in Ok (bit_string ++ pixel_bits p))
        (seq a n) acc
  = Ok (acc ++ flat_map (fun k => pixel_bits (P k)) (seq (y * w + a) n)).
Proof.
  induction n as [|n IH]; intros a acc Hget; simpl.
  - by rewrite app_nil_r.
  - rewrite Hget by lia. simpl. rewrite IH by (intros; apply Hget; lia).
    by rewrite <- app_assoc, Nat.add_succ_r.
Qed.

Lemma read_rows (f : frame) (P : nat -> pixel) n : forall a acc,
  (forall y x, a <= y < a + n -> x < w -> get_px f y x = Ok (P (y * w + x))) ->
  foldM (fun bit_string y =>
           foldM (fun bit_string x =>
                    let* p := get_px f y x in Ok (bit_string ++ pixel_bits p))
                 (seq 0 w) bit_string)
        (seq a n) acc
  = Ok (acc ++ flat_map (fun k => pixel_bits (P k)) (seq (a * w) (n * w))).
Proof.
  induction n as [|n IH]; intros a acc Hget; simpl.
  - by rewrite app_nil_r.
  - rewrite (read_row f P) by (intros; apply Hget; lia). simpl.
    rewrite IH by (intros; apply Hget; lia).
    rewrite <- app_assoc. do 2 f_equal.
    rewrite Nat.add_0_r, seq_app, flat_map_app.
    do 3 f_equal. lia.
Qed.

Lemma frame_to_bits_spec (f : frame) (P : nat -> pixel) :
  (forall y x, y < h -> x < w -> get_px f y x = Ok (P (y * w + x))) ->
  _fractal_frame_to_bits self f
  = Ok (flat_map (fun k => pixel_bits (P k)) (seq 0 (h * w))).
Proof.
  intros Hget. unfold _fractal_frame_to_bits. simpl.
  by rewrite (read_rows f P) by (intros; apply Hget; lia).
Qed.

End OneFrame.

Lemma threshold_channel c : is_bit c -> threshold (channel_of_bit c) = c.
Proof. by intros [-> | ->]. Qed.

Lemma char_at_take3 (s : list ascii) i :
  i + 3 <= length s ->
  [char_at s i; char_at s (i + 1); char_at s (i + 2)] = take 3 (drop i s).
Proof.
  intros Hi. unfold char_at.
  rewrite <- (take_drop i s) at 1 2 3.
  assert (Hl : length (take i s) = i) by (rewrite length_take; lia).
  rewrite !app_nth2 by lia. rewrite Hl.
  replace (i - i) with 0 by lia. replace (i + 1 - i) with 1 by lia.
  replace (i + 2 - i) with 2 by lia.
  assert (Hd : 3 <= length (drop i s)) by (rewrite length_drop; lia).
  by destruct (drop i s) as [|a [|b [|c t]]]; simpl in *; try lia.
Qed.

Lemma pixel_bits_at (s : list ascii) i :
  binary s -> i + 3 <= length s -> pixel_bits (pixel_at s i) = take 3 (drop i s).
Proof.
  intros Hs Hi. rewrite <- char_at_take3 by done.
  unfold pixel_bits, pixel_at, char_at.
  assert (Hb : forall j, j < length s -> is_bit (nth j s "0"%char)).
  { intros j Hj. destruct (lookup_lt_is_Some_2 s j Hj) as [c Hc].
    rewrite (nth_lookup_Some _ _ _ _ Hc). eapply Forall_lookup_1; eauto. }
  by rewrite !threshold_channel by (apply Hb; lia).
Qed.

(** Reading the cells one after the other gives back the bits written. *)
Lemma read_cells (s : list ascii) n :
  binary s -> 3 * n <= length s ->
  flat_map (fun k => pixel_bits (pixel_at s (3 * k))) (seq 0 n) = take (3 * n) s.
Proof.
  intros Hs. induction n as [|n IH]; intros Hn; [done|].
  rewrite seq_S, flat_map_app, IH by lia.
  cbn [flat_map Nat.add]. rewrite app_nil_r.
  rewrite pixel_bits_at by (done || lia).
  rewrite take_take_drop. f_equal. lia.
Qed.

(** A frame read back gives the chunk it was built from, zero-padded. *)
Lemma frame_round_trip w h chunk :
  binary chunk -> length chunk <= w * h * 3 ->
  _fractal_frame_to_bits (FractalEncoder_init w h)
    (_bits_to_fractal_frame (FractalEncoder_init w h) chunk)
  = Ok (Py.ljust (w * h * 3) "0" chunk).
Proof.
  intros Hbin Hlen.
  destruct (bits_to_frame_spec w h chunk Hlen) as [_ Hget].
  set (padded := Py.ljust (w * h * 3) "0" chunk) in *.
  assert (Hp : length padded = w * h * 3).
  { unfold padded, Py.ljust. rewrite length_app, length_replicate. lia. }
  rewrite (frame_to_bits_spec w h _ (fun k => pixel_at padded (3 * k))) by done.
  rewrite read_cells; [f_equal; apply take_ge; lia | | lia].
  unfold padded, Py.ljust. auto with bits.
Qed.

(** ** Splitting the bit string into frames and joining it again *)

(** The chunks the generator cuts: [bit_string[i:i + cap]] for the first [n]
    multiples [i] of [cap]. *)
Definition chunks_of (cap n : nat) (bs : list ascii) : list (list ascii) :=
  map (fun i => Py.slice i (i + cap) bs) (map (fun k => k * cap) (seq 0 n)).

(** The number of elements of [range(0, len, cap)]. *)
Definition frame_count (len cap : nat) : nat :=
  match len with O => O | _ => S ((len - 1) / cap) end.

Lemma slice_add {A} a n (s : list A) : Py.slice a (a + n) s = take n (drop a s).
Proof. unfold Py.slice. f_equal. lia. Qed.

Lemma chunks_of_S cap n bs :
  chunks_of cap (S n) bs = take cap bs :: chunks_of cap n (drop cap bs).
Proof.
  unfold chunks_of. cbn [seq map]. f_equal.
  - by rewrite (slice_add 0).
  - rewrite <- seq_shift, !map_map. apply map_ext. intros k.
    by rewrite !slice_add, drop_drop.
Qed.

Lemma chunks_of_length cap n bs : length (chunks_of cap n bs) = n.
Proof. unfold chunks_of. by rewrite !length_map, length_seq. Qed.

(** Joined again, the padded chunks are the bit string followed by zeros. *)
Lemma chunks_of_padded cap n : forall bs,
  length bs <= n * cap ->
  flat_map (Py.ljust cap "0") (chunks_of cap n bs)
  = bs ++ replicate (n * cap - length bs) "0"%char.
Proof.
  induction n as [|n IH]; intros bs Hlen.
  - destruct bs; [done | simpl in Hlen; lia].
  - rewrite chunks_of_S. cbn [flat_map].
    rewrite IH by (rewrite length_drop; lia).
    unfold Py.ljust. rewrite length_take, length_drop.
    destruct (Nat.le_gt_cases (length bs) cap) as [Hle|Hgt].
    + rewrite take_ge, drop_ge by done. simpl.
      rewrite <- app_assoc, <- replicate_add. do 2 f_equal. lia.
    + replace (cap - cap `min` length bs) with 0 by lia. simpl.
      rewrite app_nil_r, app_assoc, take_drop. do 2 f_equal. lia.
Qed.

Lemma chunks_of_binary cap n : forall bs,
  binary bs -> Forall (fun c => binary c /\ length c <= cap) (chunks_of cap n bs).
Proof.
  induction n as [|n IH]; intros bs Hb; [constructor|].
  rewrite chunks_of_S. constructor; [|auto with bits].
  split; [auto with bits | rewrite length_take; lia].
Qed.

Lemma frame_count_enough len cap : 0 < cap -> len <= frame_count len cap * cap.
Proof.
  intros Hcap. unfold frame_count. destruct len as [|len]; [lia|].
  replace (S len - 1) with len by lia.
  pose proof (Nat.div_mod_eq len cap) as Hd.
  pose proof (Nat.mod_upper_bound len cap ltac:(lia)). nia.
Qed.

Lemma range0_chunks len cap :
  0 < cap ->
  Py.range0 len cap = Ok (map (fun k => k * cap) (seq 0 (frame_count len cap))).
Proof. intros Hcap. unfold Py.range0, frame_count. destruct cap; [lia|done]. Qed.

Section Frames.
Variables w h : nat.
Local Abbreviation self := (FractalEncoder_init w h).
Local Abbreviation cap := (w * h * 3).

Lemma encode_chunks data :
  0 < cap ->
  encode_data_to_pixels self data
  = Ok (map (_bits_to_fractal_frame self)
          (chunks_of cap (frame_count (length (_prepare_bit_string self data)) cap)
             (_prepare_bit_string self data))).
Proof.
  intros Hcap. unfold encode_data_to_pixels.
  cbn [pixels_per_frame FractalEncoder_init].
  rewrite range0_chunks by done. cbn [bind]. f_equal.
  unfold chunks_of. by rewrite !map_map.
Qed.

Lemma frames_to_bits_chunks chunks : forall acc,
  Forall (fun c => binary c /\ length c <= cap) chunks ->
  frames_to_bits self (map (_bits_to_fractal_frame self) chunks)
  = Ok (flat_map (Py.ljust cap "0") chunks) /\
  foldM (fun bit_string f =>
           let* chunk_bits := _fractal_frame_to_bits self f in
           Ok (bit_string ++ chunk_bits))
        (map (_bits_to_fractal_frame self) chunks) acc
  = Ok (acc ++ flat_map (Py.ljust cap "0") chunks).
Proof.
  intros acc Hall.
  assert (Hgen : forall acc,
    foldM (fun bit_string f =>
             let* chunk_bits := _fractal_frame_to_bits self f in
             Ok (bit_string ++ chunk_bits))
          (map (_bits_to_fractal_frame self) chunks) acc
    = Ok (acc ++ flat_map (Py.ljust cap "0") chunks)).
  { clear acc. induction Hall as [|c cs [Hb Hl] _ IH]; intros acc; simpl.
    - by rewrite app_nil_r.
    - rewrite frame_round_trip by done. simpl.
      by rewrite IH, <- app_assoc. }
  split; [apply (Hgen []) | apply Hgen].
Qed.

End Frames.

(** ** Parsing a bit string field by field *)

Definition magic_bits : list ascii :=
  flat_map (fun c => Py.format_b 8 (Py.ord c)) magic.

Definition data_bits (data : list byte) : list ascii :=
  flat_map (fun b => Py.format_b 8 (Py.byte_val b)) data.

(** One element of the generator passed to [bytes(...)]. *)
Definition decode_byte (c : list ascii) : result byte :=
  let* n := Py.int2 c in Py.to_byte n.

(** [_parse_bit_string] after the magic check, on its three inputs: the
    length field, the checksum field and the bits that follow the header. *)
Definition parse_tail (l c rest : list ascii) : result (list byte) :=
  let* length := Py.int2 l in
  let expected_data_bits := (length * 8)%Z in
  if (Z.of_nat (List.length rest) <? expected_data_bits)%Z
  then Err (ValueError msg_incomplete) else
  let actual_data_bits := take (Z.to_nat expected_data_bits) rest in
  let* idx' := Py.range0 (List.length actual_data_bits) 8 in
  let* data_bytes := mapM (fun i => decode_byte (Py.slice i (i + 8) actual_data_bits)) idx' in
  let calculated_checksum := Py.crc32 data_bytes in
  let* expected_checksum := Py.int2 c in
  if negb (calculated_checksum =? expected_checksum)%Z
  then Err (ValueError msg_checksum)
  else Ok data_bytes.

Lemma prepare_fields self data :
  _prepare_bit_string self data
  = magic_bits ++ Py.format_b 32 (Z.of_nat (length data))
      ++ Py.format_b 32 (Py.crc32 data) ++ data_bits data.
Proof. reflexivity. Qed.

Lemma magic_bits_length : length magic_bits = 32.
Proof. reflexivity. Qed.

Lemma header_split (m l c rest : list ascii) :
  length m = 32 -> length l = 32 -> length c = 32 ->
  take 32 (m ++ l ++ c ++ rest) = m /\
  Py.slice 32 64 (m ++ l ++ c ++ rest) = l /\
  Py.slice 64 96 (m ++ l ++ c ++ rest) = c /\
  drop 96 (m ++ l ++ c ++ rest) = rest.
Proof.
  intros Hm Hl Hc. unfold Py.slice.
  change (64 - 32) with 32. change (96 - 64) with 32.
  repeat split.
  - by apply take_app_length'.
  - rewrite drop_app_length' by done. by apply take_app_length'.
  - rewrite (app_assoc m l), drop_app_length' by (rewrite length_app; lia).
    by apply take_app_length'.
  - rewrite (app_assoc m l), (app_assoc (m ++ l) c).
    apply drop_app_length'. rewrite !length_app. lia.
Qed.

Lemma parse_with_magic self l c rest :
  length l = 32 -> length c = 32 ->
  _parse_bit_string self (magic_bits ++ l ++ c ++ rest) = parse_tail l c rest.
Proof.
  intros Hl Hc.
  destruct (header_split magic_bits l c rest magic_bits_length Hl Hc)
    as (Hm & Hl' & Hc' & Hr).
  unfold _parse_bit_string. rewrite Hm, Hl', Hc', Hr. reflexivity.
Qed.

Lemma mapM_map {A B C} (f : B -> result C) (g : A -> B) xs :
  mapM f (map g xs) = mapM (fun x => f (g x)) xs.
Proof. induction xs as [|x xs IH]; simpl; [done | by rewrite IH]. Qed.

Lemma chunks_of_concat cap (chunks : list (list ascii)) :
  Forall (fun c => length c = cap) chunks ->
  chunks_of cap (length chunks) (concat chunks) = chunks.
Proof.
  induction 1 as [|c cs Hc _ IH]; [done|].
  cbn [length concat]. rewrite chunks_of_S.
  rewrite take_app_length', drop_app_length' by done. by rewrite IH.
Qed.

Lemma length_concat_fixed {A} cap (chunks : list (list A)) :
  Forall (fun c => length c = cap) chunks ->
  length (concat chunks) = cap * length chunks.
Proof.
  induction 1 as [|c cs Hc _ IH]; simpl; [lia|].
  rewrite length_app, IH, Hc. lia.
Qed.

Lemma frame_count_exact cap n : 0 < cap -> frame_count (cap * n) cap = n.
Proof.
  intros Hcap. unfold frame_count.
  destruct (cap * n) as [|m] eqn:Hm; [nia|].
  replace (S m - 1) with m by lia.
  destruct n as [|n]; [lia|]. f_equal.
  symmetry. apply (Nat.div_unique m cap n (cap - 1)); [lia | nia].
Qed.

(** The loop that rebuilds the payload bytes, eight bits at a time. *)
Lemma bytes_of_chunks {B} (chunks : list (list ascii)) (k : list byte -> result B) :
  Forall (fun c => length c = 8) chunks ->
  (let* idx := Py.range0 (length (concat chunks)) 8 in
   let* data_bytes :=
     mapM (fun i => decode_byte (Py.slice i (i + 8) (concat chunks))) idx in
   k data_bytes)
  = let* data_bytes := mapM decode_byte chunks in k data_bytes.
Proof.
  intros Hall. rewrite range0_chunks by lia. cbn [bind].
  rewrite (length_concat_fixed 8) by done.
  rewrite frame_count_exact by lia.
  rewrite <- (mapM_map decode_byte (fun i => Py.slice i (i + 8) (concat chunks))).
  change (map _ (map _ (seq 0 (length chunks))))
    with (chunks_of 8 (length chunks) (concat chunks)).
  by rewrite chunks_of_concat.
Qed.

Lemma data_bits_concat data :
  data_bits data = concat (map (fun b => Py.format_b 8 (Py.byte_val b)) data).
Proof. apply flat_map_concat_map. Qed.

Lemma data_chunks_length data :
  Forall (fun c => length c = 8) (map (fun b => Py.format_b 8 (Py.byte_val b)) data).
Proof.
  induction data; simpl; constructor; auto using PyFacts.format_byte_length.
Qed.

Lemma data_bits_length data : length (data_bits data) = 8 * length data.
Proof.
  rewrite data_bits_concat, (length_concat_fixed 8) by apply data_chunks_length.
  by rewrite length_map.
Qed.

Lemma binary_data_bits data : binary (data_bits data).
Proof.
  apply binary_flat_map. intros b. apply PyFacts.binary_format_b.
  apply PyFacts.byte_val_range.
Qed.

Lemma decode_data_chunks data :
  mapM decode_byte (map (fun b => Py.format_b 8 (Py.byte_val b)) data) = Ok data.
Proof.
  induction data as [|b data IH]; simpl; [done|].
  unfold decode_byte at 1.
  rewrite PyFacts.int2_format_b by apply PyFacts.byte_val_range. simpl.
  by rewrite PyFacts.to_byte_byte_val, IH.
Qed.

(** The payload length fits the 32-bit length field (the data model's
    bound on a payload: at most 2^32 - 1 bytes). *)
Definition fits32 (data : list byte) : Prop :=
  (Z.of_nat (length data) < 2 ^ 32)%Z.

Lemma length_field_length data :
  fits32 data -> length (Py.format_b 32 (Z.of_nat (length data))) = 32.
Proof. intros H. apply (PyFacts.format_b_length 32); [|lia]. unfold fits32 in H. lia. Qed.

Lemma checksum_field_length data : length (Py.format_b 32 (Py.crc32 data)) = 32.
Proof. apply (PyFacts.format_b_length 32); [|lia]. apply CrcFacts.crc32_range. Qed.

Lemma prepare_length self data :
  fits32 data -> length (_prepare_bit_string self data) = 96 + 8 * length data.
Proof.
  intros H. rewrite prepare_fields, !length_app, magic_bits_length,
    length_field_length, checksum_field_length, data_bits_length by done. lia.
Qed.

Lemma binary_prepare self data : binary (_prepare_bit_string self data).
Proof.
  rewrite prepare_fields.
  apply binary_app; [|apply binary_app; [|apply binary_app]].
  - apply binary_flat_map. intros c. apply PyFacts.binary_format_b.
    unfold Py.ord. lia.
  - apply PyFacts.binary_format_b. lia.
  - apply PyFacts.binary_format_b. apply CrcFacts.crc32_range.
  - apply binary_data_bits.
Qed.

(** Parsing what [_prepare_bit_string] built, whatever follows it. *)
Lemma parse_prepared self data pad :
  fits32 data -> _parse_bit_string self (_prepare_bit_string self data ++ pad) = Ok data.
Proof.
  intros Hfit. rewrite prepare_fields, <- !app_assoc.
  rewrite parse_with_magic by auto using length_field_length, checksum_field_length.
  unfold parse_tail.
  rewrite PyFacts.int2_format_b by lia. cbn [bind].
  rewrite length_app, data_bits_length.
  destruct (Z.ltb_spec (Z.of_nat (8 * length data + length pad))
              (Z.of_nat (length data) * 8)); [lia|].
  replace (Z.to_nat (Z.of_nat (length data) * 8)) with (length (data_bits data))
    by (rewrite data_bits_length; lia).
  rewrite take_app_length, data_bits_concat.
  rewrite bytes_of_chunks by apply data_chunks_length.
  rewrite decode_data_chunks. cbn [bind].
  rewrite PyFacts.int2_format_b by apply CrcFacts.crc32_range. cbn [bind].
  by rewrite Z.eqb_refl.
Qed.

(** ** Encode followed by Decode *)

Lemma ljust_length cap (s : list ascii) :
  length s <= cap -> length (Py.ljust cap "0" s) = cap.
Proof. intros H. unfold Py.ljust. rewrite length_app, length_replicate. lia. Qed.

(** The bits Decode reads from the frames Encode produced: the bit string,
    then zeros up to a whole number of frames. *)
Lemma encoded_bits w h data :
  0 < w * h * 3 ->
  exists frames,
    encode_data_to_pixels (FractalEncoder_init w h) data = Ok frames /\
    length frames
    = frame_count (length (_prepare_bit_string (FractalEncoder_init w h) data)) (w * h * 3) /\
    frames_to_bits (FractalEncoder_init w h) frames
    = Ok (_prepare_bit_string (FractalEncoder_init w h) data
          ++ replicate (length frames * (w * h * 3)
                        - length (_prepare_bit_string (FractalEncoder_init w h) data))
               "0"%char).
Proof.
  intros Hcap. rewrite encode_chunks by done.
  eexists. split; [reflexivity|].
  rewrite length_map, chunks_of_length. split; [done|].
  destruct (frames_to_bits_chunks w h
              (chunks_of (w * h * 3)
                 (frame_count (length (_prepare_bit_string (FractalEncoder_init w h) data))
                    (w * h * 3))
                 (_prepare_bit_string (FractalEncoder_init w h) data)) [])
    as [Hbits _].
  { apply chunks_of_binary, binary_prepare. }
  rewrite Hbits. f_equal. apply chunks_of_padded.
  by apply frame_count_enough.
Qed.

Lemma codec_round_trip w h data :
  fits32 data -> 0 < w * h * 3 ->
  exists frames,
    encode_data_to_pixels (FractalEncoder_init w h) data = Ok frames /\
    length frames = frame_count (96 + 8 * length data) (w * h * 3) /\
    decode_pixels_to_data (FractalEncoder_init w h) frames = Ok data.
Proof.
  intros Hfit Hcap.
  destruct (encoded_bits w h data Hcap) as (frames & Henc & Hlen & Hbits).
  exists frames. split; [done|]. split.
  - by rewrite Hlen, prepare_length.
  - unfold decode_pixels_to_data. rewrite Hbits. cbn [bind].
    by apply parse_prepared.
Qed.

Definition hi : list byte := ["h"; "i"]%byte.

(** C1. Round trip: for every payload [p] (the empty one included) that fits
    the 32-bit length field and every [width], [height] with
    [width * height * 3 >= 96], Encode yields a frame sequence and Decode,
    on an encoder of the same dimensions, returns exactly [p] from it. *)
Theorem round_trip (p : list byte) (w h : nat) :
  fits32 p -> 96 <= w * h * 3 ->
  exists frames,
    encode_data_to_pixels (FractalEncoder_init w h) p = Ok frames /\
    decode_pixels_to_data (FractalEncoder_init w h) frames = Ok p.
Proof.
  intros Hfit Hcap.
  destruct (codec_round_trip w h p Hfit ltac:(lia)) as (frames & Henc & _ & Hdec).
  by exists frames.
Qed.

Lemma round_trip_witness :
  fits32 hi /\ 96 <= 8 * 8 * 3 /\
  exists frames,
    encode_data_to_pixels (FractalEncoder_init 8 8) hi = Ok frames /\
    decode_pixels_to_data (FractalEncoder_init 8 8) frames = Ok hi.
Proof.
  split; [reflexivity|]. split; [vm_compute; lia|].
  apply (round_trip hi 8 8); [reflexivity | vm_compute; lia].
Defined.

(** The empty payload is covered by the same law. *)
Lemma round_trip_empty w h :
  96 <= w * h * 3 ->
  exists frames,
    encode_data_to_pixels (FractalEncoder_init w h) [] = Ok frames /\
    decode_pixels_to_data (FractalEncoder_init w h) frames = Ok [].
Proof.
  intros Hcap. destruct (codec_round_trip w h [] ltac:(reflexivity) ltac:(lia))
    as (frames & Henc & _ & Hdec).
  by exists frames.
Qed.

(** Why the bound on the payload length is there: from 2^32 bytes on, the
    length no longer fits its field, [format] returns 33 digits and the
    header is not 96 bits long any more. *)
Lemma length_field_overflow : length (Py.format_b 32 (2 ^ 32)%Z) = 33.
Proof. reflexivity. Qed.

(** The scenario of the spec: 1000 zero bytes in 4 x 4 frames. *)
Definition zeros1000 : list byte := replicate 1000 "000"%byte.

(** C2, as stated, fails: with [width = 4], [height = 4] the capacity is
    48 < 96, and yet Encode raises nothing; it yields 169 frames. *)
Lemma small_capacity_not_rejected :
  4 * 4 * 3 < 96 /\
  (exists frames,
     encode_data_to_pixels (FractalEncoder_init 4 4) zeros1000 = Ok frames /\
     length frames = 169) /\
  ~ (exists e, encode_data_to_pixels (FractalEncoder_init 4 4) zeros1000 = Err e).
Proof.
  split; [vm_compute; lia|]. split.
  - eexists. split; vm_compute; reflexivity.
  - intros [e He]. by vm_compute in He.
Qed.

(** C2, amended. A capacity below 96 is not rejected: for every payload that
    fits the length field and every [width], [height] with
    [0 < width * height * 3 < 96], Encode succeeds, yields the number of
    frames [range(0, 96 + 8 * len(p), capacity)] has elements, and Decode
    returns the payload from them (the header simply spans several frames). *)
Theorem small_capacity_accepted (p : list byte) (w h : nat) :
  fits32 p -> 0 < w * h * 3 < 96 ->
  exists frames,
    encode_data_to_pixels (FractalEncoder_init w h) p = Ok frames /\
    length frames = frame_count (96 + 8 * length p) (w * h * 3) /\
    2 <= length frames /\
    decode_pixels_to_data (FractalEncoder_init w h) frames = Ok p.
Proof.
  intros Hfit [Hpos Hsmall].
  destruct (codec_round_trip w h p Hfit Hpos) as (frames & Henc & Hlen & Hdec).
  exists frames. repeat split; [done | done | | done].
  pose proof (frame_count_enough (96 + 8 * length p) (w * h * 3) Hpos).
  rewrite Hlen. nia.
Qed.

Lemma small_capacity_accepted_witness :
  fits32 hi /\ 0 < 4 * 4 * 3 < 96 /\
  exists frames,
    encode_data_to_pixels (FractalEncoder_init 4 4) hi = Ok frames /\
    length frames = frame_count (96 + 8 * length hi) (4 * 4 * 3) /\
    2 <= length frames /\
    decode_pixels_to_data (FractalEncoder_init 4 4) frames = Ok hi.
Proof.
  split; [reflexivity|]. split; [vm_compute; lia|].
  apply (small_capacity_accepted hi 4 4); [reflexivity | vm_compute; lia].
Defined.

(** With a zero dimension the only failure is the one of [range]. *)
Lemma zero_capacity_range_error data h :
  encode_data_to_pixels (FractalEncoder_init 0 h) data
  = Err (ValueError "range() arg 3 must not be zero").
Proof. reflexivity. Qed.

(** ** The layout of the bit stream *)

(** The bit stream as the specification words it, independently of
    [format]: every field is a fixed-width unsigned number written most
    significant bit first. *)
Module Spec.

Definition bit_char (b : bool) : ascii := if b then "1"%char else "0"%char.

(** The [n]-bit unsigned big-endian representation of [v]. *)
Definition unsigned_bits (n : nat) (v : Z) : list ascii :=
  map (fun i => bit_char (Z.testbit v (Z.of_nat i))) (rev (seq 0 n)).

Definition bit_stream (payload : list byte) : list ascii :=
  flat_map (fun c => unsigned_bits 8 (Py.ord c)) (list_ascii_of_string "FOLD")
  ++ unsigned_bits 32 (Z.of_nat (length payload))
  ++ unsigned_bits 32 (Py.crc32 payload)
  ++ flat_map (fun b => unsigned_bits 8 (Py.byte_val b)) payload.

End Spec.

Lemma unsigned_bits_S n v :
  Spec.unsigned_bits (S n) v
  = Spec.unsigned_bits n (Z.div2 v) ++ [Spec.bit_char (Z.testbit v 0)].
Proof.
  unfold Spec.unsigned_bits.
  change (seq 0 (S n)) with (0 :: seq 1 n).
  rewrite <- seq_shift. cbn [rev]. rewrite map_app, <- map_rev, map_map.
  cbn [map]. f_equal. apply map_ext. intros i.
  rewrite Nat2Z.inj_succ, Z.div2_spec, Z.shiftr_spec by lia.
  by rewrite Z.add_1_r.
Qed.

Lemma unsigned_bits_0 n : Spec.unsigned_bits n 0 = replicate n "0"%char.
Proof.
  induction n as [|n IH]; [done|].
  rewrite unsigned_bits_S. change (Z.div2 0) with 0%Z. rewrite IH.
  change (replicate (S n) "0"%char) with (replicate (1 + n) "0"%char).
  rewrite Nat.add_comm, replicate_add. done.
Qed.

(** The digits of [v] without the lone 0 that stands for zero. *)
Definition digits0 (v : Z) : list ascii :=
  match v with Zpos p => Py.pos_bin p | _ => [] end.

Lemma zero_fill_snoc n (d : list ascii) c :
  length d <= n ->
  replicate (S n - length (d ++ [c])) "0"%char ++ d ++ [c]
  = (replicate (n - length d) "0"%char ++ d) ++ [c].
Proof.
  intros Hd. rewrite length_app, <- app_assoc. cbn [length].
  do 2 f_equal. lia.
Qed.

Lemma zero_fill_unsigned n : forall v,
  (0 <= v < 2 ^ Z.of_nat n)%Z ->
  replicate (n - length (digits0 v)) "0"%char ++ digits0 v = Spec.unsigned_bits n v.
Proof.
  induction n as [|n IH]; intros v Hv.
  - change (2 ^ Z.of_nat 0)%Z with 1%Z in Hv.
    assert (v = 0%Z) as -> by lia. done.
  - rewrite Nat2Z.inj_succ, Z.pow_succ_r in Hv by lia.
    rewrite unsigned_bits_S.
    destruct v as [|p|p]; [| |lia].
    + change (Z.div2 0) with 0%Z. rewrite unsigned_bits_0. cbn [digits0 length].
      rewrite app_nil_r, Nat.sub_0_r.
      change (replicate (S n) "0"%char) with (replicate (1 + n) "0"%char).
      by rewrite Nat.add_comm, replicate_add.
    + assert (Hlen : forall q, (Z.pos q < 2 ^ Z.of_nat n)%Z -> length (Py.pos_bin q) <= n).
      { intros q Hq. destruct n as [|n']; [simpl in Hq; lia|].
        apply (PyFacts.bin_digits_length_le (S n') (Z.pos q)); lia. }
      destruct p as [q|q|].
      * change (Z.div2 (Z.pos q~1)) with (Z.pos q).
        change (Z.testbit (Z.pos q~1) 0) with true.
        rewrite <- (IH (Z.pos q)) by lia.
        apply zero_fill_snoc, Hlen. lia.
      * change (Z.div2 (Z.pos q~0)) with (Z.pos q).
        change (Z.testbit (Z.pos q~0) 0) with false.
        rewrite <- (IH (Z.pos q)) by lia.
        apply zero_fill_snoc, Hlen. lia.
      * change (Z.div2 1) with 0%Z. rewrite unsigned_bits_0.
        cbn [digits0 Py.pos_bin length]. by replace (S n - 1) with n by lia.
Qed.

Lemma format_b_unsigned (n : nat) v :
  1 <= n -> (0 <= v < 2 ^ Z.of_nat n)%Z -> Py.format_b n v = Spec.unsigned_bits n v.
Proof.
  intros Hn Hv. rewrite PyFacts.format_b_nonneg by lia.
  rewrite <- zero_fill_unsigned by done.
  destruct v as [|p|p]; [|done|lia].
  cbn [Py.bin_digits digits0 length]. rewrite app_nil_r, Nat.sub_0_r.
  destruct n as [|n]; [lia|]. replace (S n - 1) with n by lia.
  change (replicate (S n) "0"%char) with (replicate (1 + n) "0"%char).
  by rewrite Nat.add_comm, replicate_add.
Qed.

(** C5. For every payload that fits the length field, the bit string built
    by Encode is, in order: the 32 bits of the ASCII bytes of FOLD (most
    significant bit first in each byte), the 32-bit unsigned big-endian
    representation of [len(payload)], the 32-bit unsigned representation of
    the CRC-32 of the payload bytes alone, and the bits of the payload, most
    significant bit first in each byte, bytes in their original order. *)
Theorem bit_stream_layout (self : FractalEncoder) (p : list byte) :
  fits32 p -> _prepare_bit_string self p = Spec.bit_stream p.
Proof.
  intros Hfit. rewrite prepare_fields. unfold Spec.bit_stream.
  rewrite (format_b_unsigned 32 (Z.of_nat (length p)))
    by (unfold fits32 in Hfit; lia).
  rewrite (format_b_unsigned 32 (Py.crc32 p))
    by (apply CrcFacts.crc32_range || lia).
  assert (Hdata : data_bits p
                  = flat_map (fun b => Spec.unsigned_bits 8 (Py.byte_val b)) p).
  { unfold data_bits. apply flat_map_ext. intros b.
    apply format_b_unsigned; [lia|]. pose proof (PyFacts.byte_val_range b).
    change (2 ^ Z.of_nat 8)%Z with 256%Z. lia. }
  rewrite Hdata.
  change magic_bits
    with (flat_map (fun c => Spec.unsigned_bits 8 (Py.ord c))
            (list_ascii_of_string "FOLD")).
  reflexivity.
Qed.

Lemma bit_stream_layout_witness :
  fits32 hi /\ _prepare_bit_string (FractalEncoder_init 8 8) hi = Spec.bit_stream hi.
Proof.
  split; [reflexivity|].
  apply (bit_stream_layout (FractalEncoder_init 8 8) hi). reflexivity.
Defined.

(** ** The values written into the frames *)

Definition channel_ok (v : Z) : Prop := v = 0%Z \/ v = 255%Z.

Definition pixel_ok (p : pixel) : Prop :=
  let '(r, g, b) := p in channel_ok r /\ channel_ok g /\ channel_ok b.

Lemma channel_of_bit_ok c : channel_ok (channel_of_bit c).
Proof. unfold channel_ok, channel_of_bit. destruct (Ascii.eqb c "1"); auto. Qed.

Lemma pixel_at_ok s i : pixel_ok (pixel_at s i).
Proof. unfold pixel_ok, pixel_at. auto using channel_of_bit_ok. Qed.

Lemma get_px_lookup (f : frame) y x row p :
  f !! y = Some row -> row !! x = Some p -> get_px f y x = Ok p.
Proof. intros Hy Hx. unfold get_px. by rewrite Hy, Hx. Qed.

Lemma frame_of_chunk_ok w h chunk :
  length chunk <= w * h * 3 ->
  Forall (Forall pixel_ok) (_bits_to_fractal_frame (FractalEncoder_init w h) chunk).
Proof.
  intros Hlen. destruct (bits_to_frame_spec w h chunk Hlen) as [[Hh Hrows] Hget].
  apply Forall_lookup_2. intros y row Hy.
  apply Forall_lookup_2. intros x p Hx.
  pose proof (lookup_lt_Some _ _ _ Hy) as Hy'.
  pose proof (lookup_lt_Some _ _ _ Hx) as Hx'.
  pose proof (Forall_lookup_1 _ _ _ _ Hrows Hy) as Hw. simpl in Hw.
  pose proof (get_px_lookup _ _ _ _ _ Hy Hx) as Hp.
  rewrite Hget in Hp by lia. inversion Hp. apply pixel_at_ok.
Qed.

(** C7. For every payload and valid dimensions, every channel of every cell
    of every frame Encode produces is exactly 0 or 255. *)
Theorem encoded_channels (p : list byte) (w h : nat) :
  96 <= w * h * 3 ->
  exists frames,
    encode_data_to_pixels (FractalEncoder_init w h) p = Ok frames /\
    Forall (Forall (Forall pixel_ok)) frames.
Proof.
  intros Hcap. rewrite encode_chunks by lia. eexists. split; [reflexivity|].
  apply Forall_forall. intros f Hf.
  apply list_elem_of_In, in_map_iff in Hf. destruct Hf as (chunk & <- & Hin).
  apply frame_of_chunk_ok.
  pose proof (chunks_of_binary (w * h * 3)
                (frame_count (length (_prepare_bit_string (FractalEncoder_init w h) p))
                   (w * h * 3))
                _ (binary_prepare (FractalEncoder_init w h) p)) as Hall.
  rewrite Forall_forall in Hall. apply list_elem_of_In in Hin.
  by destruct (Hall chunk Hin).
Qed.

Lemma encoded_channels_witness :
  96 <= 8 * 8 * 3 /\
  exists frames,
    encode_data_to_pixels (FractalEncoder_init 8 8) hi = Ok frames /\
    Forall (Forall (Forall pixel_ok)) frames.
Proof.
  split; [vm_compute; lia|].
  apply (encoded_channels hi 8 8). vm_compute; lia.
Defined.

(** ** The number of frames *)

Module SpecCount.
(** [ceil(a / b)] for natural numbers. *)
Definition ceil_div (a b : nat) : nat := (a + b - 1) / b.
End SpecCount.

(** [ceil_div a b] is the least number of [b]-sized frames that hold [a] bits. *)
Lemma ceil_div_least a b :
  0 < b -> a <= SpecCount.ceil_div a b * b /\ forall n, a <= n * b -> SpecCount.ceil_div a b <= n.
Proof.
  intros Hb. unfold SpecCount.ceil_div.
  pose proof (Nat.div_mod_eq (a + b - 1) b) as Hd.
  pose proof (Nat.mod_upper_bound (a + b - 1) b ltac:(lia)) as Hm.
  split; [nia|]. intros n Hn.
  destruct (Nat.le_gt_cases ((a + b - 1) / b) n); [done|]. nia.
Qed.

Lemma frame_count_ceil len cap :
  0 < len -> 0 < cap -> frame_count len cap = SpecCount.ceil_div len cap.
Proof.
  intros Hlen Hcap. unfold frame_count, SpecCount.ceil_div.
  destruct len as [|m]; [lia|].
  replace (S m - 1) with m by lia. replace (S m + cap - 1) with (m + 1 * cap) by lia.
  rewrite Nat.div_add by lia. lia.
Qed.

(** C9. For every payload that fits the length field and valid dimensions,
    Encode yields [ceil((96 + 8 * len(p)) / (width * height * 3))] frames;
    for the empty payload that is exactly one frame, which carries the 96-bit
    header followed by zero bits only. *)
Theorem frame_count_law (p : list byte) (w h : nat) :
  fits32 p -> 96 <= w * h * 3 ->
  exists frames,
    encode_data_to_pixels (FractalEncoder_init w h) p = Ok frames /\
    length frames = SpecCount.ceil_div (96 + 8 * length p) (w * h * 3) /\
    (p = [] ->
     exists f, frames = [f] /\
       length (_prepare_bit_string (FractalEncoder_init w h) []) = 96 /\
       _fractal_frame_to_bits (FractalEncoder_init w h) f
       = Ok (_prepare_bit_string (FractalEncoder_init w h) []
             ++ replicate (w * h * 3 - 96) "0"%char)).
Proof.
  intros Hfit Hcap.
  destruct (encoded_bits w h p ltac:(lia)) as (frames & Henc & Hlen & Hbits).
  exists frames. split; [done|]. split.
  - rewrite Hlen, prepare_length by done. apply frame_count_ceil; lia.
  - intros ->. rewrite prepare_length in Hlen, Hbits by done.
    cbn [length] in Hlen, Hbits.
    assert (Hone : length frames = 1).
    { rewrite Hlen. unfold frame_count. cbn [Nat.add Nat.mul].
      rewrite Nat.div_small by lia. done. }
    destruct frames as [|f [|f' fs]]; try (simpl in Hone; lia).
    exists f. split; [done|]. split; [by rewrite prepare_length|].
    unfold frames_to_bits in Hbits. cbn [foldM] in Hbits.
    destruct (_fractal_frame_to_bits (FractalEncoder_init w h) f) as [bits|e];
      cbn [bind app] in Hbits; [|done].
    rewrite Hbits. do 3 f_equal. cbn [length]. lia.
Qed.

Lemma frame_count_law_witness :
  fits32 [] /\ 96 <= 8 * 8 * 3 /\
  exists frames,
    encode_data_to_pixels (FractalEncoder_init 8 8) [] = Ok frames /\
    length frames = SpecCount.ceil_div (96 + 8 * length (@nil byte)) (8 * 8 * 3) /\
    (@nil byte = [] ->
     exists f, frames = [f] /\
       length (_prepare_bit_string (FractalEncoder_init 8 8) []) = 96 /\
       _fractal_frame_to_bits (FractalEncoder_init 8 8) f
       = Ok (_prepare_bit_string (FractalEncoder_init 8 8) []
             ++ replicate (8 * 8 * 3 - 96) "0"%char)).
Proof.
  split; [reflexivity|]. split; [vm_compute; lia|].
  apply (frame_count_law [] 8 8); [reflexivity | vm_compute; lia].
Defined.

(** ** What each frame carries *)

Lemma chunks_of_structure cap n : forall bs,
  0 < cap -> n * cap < length bs <= S n * cap ->
  exists full last,
    chunks_of cap (S n) bs = full ++ [last] /\
    length full = n /\
    Forall (fun c => length c = cap) full /\
    0 < length last <= cap /\
    concat full ++ last = bs.
Proof.
  induction n as [|n IH]; intros bs Hcap Hlen.
  - exists [], bs. rewrite chunks_of_S. unfold chunks_of. cbn [seq map].
    rewrite take_ge by lia. repeat split; (done || lia || constructor).
  - destruct (IH (drop cap bs) Hcap) as (full & last & Heq & Hn & Hfull & Hlast & Hcat).
    { rewrite length_drop. lia. }
    exists (take cap bs :: full), last. rewrite chunks_of_S, Heq.
    repeat split; try (done || lia).
    + cbn [length]. lia.
    + constructor; [rewrite length_take; lia | done].
    + cbn [concat]. by rewrite <- app_assoc, Hcat, take_drop.
Qed.

Lemma frame_count_bounds len cap :
  0 < len -> 0 < cap ->
  exists n, frame_count len cap = S n /\ n * cap < len <= S n * cap.
Proof.
  intros Hlen Hcap. unfold frame_count. destruct len as [|m]; [lia|].
  exists ((S m - 1) / cap). split; [done|].
  replace (S m - 1) with m by lia.
  pose proof (Nat.div_mod_eq m cap). pose proof (Nat.mod_upper_bound m cap ltac:(lia)).
  nia.
Qed.

Lemma prepare_nonempty self data : 32 <= length (_prepare_bit_string self data).
Proof. rewrite prepare_fields, length_app, magic_bits_length. lia. Qed.

Lemma ljust_full cap (c : list ascii) : length c = cap -> Py.ljust cap "0" c = c.
Proof.
  intros Hc. unfold Py.ljust. rewrite Hc, Nat.sub_diag. apply app_nil_r.
Qed.

Lemma flat_map_ljust_full cap (full : list (list ascii)) :
  Forall (fun c => length c = cap) full ->
  flat_map (Py.ljust cap "0") full = concat full.
Proof.
  induction 1 as [|c cs Hc _ IH]; [done|].
  cbn [flat_map concat]. by rewrite ljust_full, IH.
Qed.

(** The frames Encode yields, chunk by chunk: all chunks but the last are
    full, the last one is not empty, and together they are the bit string.
    The frames before the last carry strictly less than the bit string. *)
Lemma encode_structure w h data :
  0 < w * h * 3 ->
  exists full last,
    encode_data_to_pixels (FractalEncoder_init w h) data
    = Ok (map (_bits_to_fractal_frame (FractalEncoder_init w h)) (full ++ [last])) /\
    concat full ++ last = _prepare_bit_string (FractalEncoder_init w h) data /\
    Forall (fun c => length c = w * h * 3) full /\
    0 < length last <= w * h * 3 /\
    frames_to_bits (FractalEncoder_init w h)
      (map (_bits_to_fractal_frame (FractalEncoder_init w h)) full)
    = Ok (concat full).
Proof.
  intros Hcap. rewrite encode_chunks by done.
  pose proof (prepare_nonempty (FractalEncoder_init w h) data) as Hne.
  destruct (frame_count_bounds
              (length (_prepare_bit_string (FractalEncoder_init w h) data))
              (w * h * 3) ltac:(lia) Hcap) as (n & Hn & Hb).
  rewrite Hn.
  destruct (chunks_of_structure (w * h * 3) n _ Hcap Hb)
    as (full & last & Heq & _ & Hfull & Hlast & Hcat).
  exists full, last. rewrite Heq. repeat split; try (done || lia).
  destruct (frames_to_bits_chunks w h full []) as [Hbits _].
  - pose proof (chunks_of_binary (w * h * 3) (S n) _
                  (binary_prepare (FractalEncoder_init w h) data)) as Hall.
    rewrite Heq in Hall. apply Forall_app in Hall. tauto.
  - by rewrite Hbits, flat_map_ljust_full.
Qed.



(** ** What Decode reads from arbitrary frames *)

Lemma concat_lookup_row {A} w (f : list (list A)) : forall y x row p,
  Forall (fun row => length row = w) f ->
  f !! y = Some row -> row !! x = Some p -> concat f !! (y * w + x) = Some p.
Proof.
  induction f as [|r f IH]; intros y x row p Hall Hy Hx; [done|].
  apply Forall_cons in Hall as [Hr Hall]. destruct y as [|y]; simpl in *.
  - inversion Hy; subst. by apply lookup_app_l_Some.
  - rewrite lookup_app_r by lia.
    replace (w + y * w + x - length r) with (y * w + x) by lia. eauto.
Qed.

Lemma flat_map_map {A B C} (g : B -> list C) (t : A -> B) l :
  flat_map g (map t l) = flat_map (fun a => g (t a)) l.
Proof. induction l as [|a l IH]; simpl; [done | by rewrite IH]. Qed.

Lemma flat_map_nth_seq {A B} (g : A -> list B) (l : list A) d :
  flat_map (fun k => g (nth k l d)) (seq 0 (length l)) = flat_map g l.
Proof.
  induction l as [|a l IH]; [done|].
  cbn [length seq flat_map]. rewrite <- seq_shift, flat_map_map.
  cbn [nth]. by rewrite IH.
Qed.

(** The bits of a frame, cell after cell in row-major order. *)
Definition frame_bits (f : frame) : list ascii := flat_map pixel_bits (concat f).

Lemma frame_to_bits_shaped w h (f : frame) :
  shaped w h f -> _fractal_frame_to_bits (FractalEncoder_init w h) f = Ok (frame_bits f).
Proof.
  intros [Hh Hrows].
  rewrite (frame_to_bits_spec w h f (fun k => nth k (concat f) (0, 0, 0)%Z)).
  - replace (h * w) with (length (concat f))
      by (rewrite (length_concat_fixed w f Hrows); lia).
    by rewrite flat_map_nth_seq.
  - intros y x Hy Hx.
    destruct (lookup_lt_is_Some_2 f y) as [row Hrow]; [lia|].
    pose proof (Forall_lookup_1 _ _ _ _ Hrows Hrow) as Hw. simpl in Hw.
    destruct (lookup_lt_is_Some_2 row x) as [p Hp]; [lia|].
    rewrite (get_px_lookup _ _ _ _ _ Hrow Hp). f_equal. symmetry.
    apply nth_lookup_Some. by apply (concat_lookup_row w f y x row).
Qed.

Lemma frames_to_bits_shaped w h (frames : list frame) :
  Forall (shaped w h) frames ->
  frames_to_bits (FractalEncoder_init w h) frames = Ok (flat_map frame_bits frames).
Proof.
  intros Hall. unfold frames_to_bits.
  assert (Hgen : forall acc,
    foldM (fun bit_string f =>
             let* chunk_bits := _fractal_frame_to_bits (FractalEncoder_init w h) f in
             Ok (bit_string ++ chunk_bits)) frames acc
    = Ok (acc ++ flat_map frame_bits frames)).
  { induction Hall as [|f fs Hf _ IH]; intros acc; cbn [foldM flat_map].
    - by rewrite app_nil_r.
    - rewrite frame_to_bits_shaped by done. cbn [bind].
      by rewrite IH, <- app_assoc. }
  apply (Hgen []).
Qed.

(** C6. For every sequence of frames of the decoder's shape, whatever the
    channel values, Decode extracts the bits frame after frame in input
    order, cell after cell in row-major order, three bits per cell, each
    channel on its own: a value of 128 or more gives the bit 1, any smaller
    value the bit 0. The bit string so obtained is what gets parsed. *)
Theorem decode_reads_thresholds (w h : nat) (frames : list frame) :
  Forall (shaped w h) frames ->
  let bits :=
    flat_map (fun f =>
      flat_map (fun '(r, g, b) =>
                  [Spec.bit_char (128 <=? r)%Z;
                   Spec.bit_char (128 <=? g)%Z;
                   Spec.bit_char (128 <=? b)%Z]) (concat f)) frames in
  frames_to_bits (FractalEncoder_init w h) frames = Ok bits /\
  decode_pixels_to_data (FractalEncoder_init w h) frames
  = _parse_bit_string (FractalEncoder_init w h) bits.
Proof.
  intros Hall bits.
  assert (Hbits : frames_to_bits (FractalEncoder_init w h) frames = Ok bits).
  { rewrite frames_to_bits_shaped by done. reflexivity. }
  split; [done|]. unfold decode_pixels_to_data. by rewrite Hbits.
Qed.

(** Two frames of one row of two cells, with values on both sides of 128. *)
Definition noisy_frames : list frame :=
  [ [[(0, 127, 128)%Z; (255, 1, 200)%Z]]; [[(129, 64, 3)%Z; (128, 128, 127)%Z]] ].

Lemma decode_reads_thresholds_witness :
  Forall (shaped 2 1) noisy_frames /\
  frames_to_bits (FractalEncoder_init 2 1) noisy_frames
  = Ok (list_ascii_of_string "001101100110").
Proof.
  assert (Hs : Forall (shaped 2 1) noisy_frames).
  { repeat constructor. }
  split; [exact Hs|].
  exact (proj1 (decode_reads_thresholds 2 1 noisy_frames Hs)).
Defined.

(** ** More on [int(s, 2)]: totality and injectivity on bit strings *)

Lemma int2_acc_inj s : forall t a b,
  length s = length t -> binary s -> binary t ->
  Py.int2_acc a s = Py.int2_acc b t -> a = b /\ s = t.
Proof.
  induction s as [|c s IH]; intros [|d t] a b Hlen Hs Ht Heq; try done.
  - simpl in Heq. by inversion Heq.
  - apply Forall_cons in Hs as [Hc Hs]. apply Forall_cons in Ht as [Hd Ht].
    simpl in Hlen. assert (Hlen' : length s = length t) by lia.
    destruct Hc as [-> | ->], Hd as [-> | ->]; simpl in Heq;
      destruct (IH t _ _ Hlen' Hs Ht Heq) as [Hab ->]; (split; [lia | done]) || lia.
Qed.

Lemma int2_acc_total s : forall a,
  binary s -> (0 <= a)%Z ->
  exists v, Py.int2_acc a s = Some v /\
            (a * 2 ^ Z.of_nat (length s) <= v < (a + 1) * 2 ^ Z.of_nat (length s))%Z.
Proof.
  induction s as [|c s IH]; intros a Hs Ha.
  - exists a. split; [done|]. simpl. lia.
  - apply Forall_cons in Hs as [Hc Hs].
    cbn [length]. rewrite Nat2Z.inj_succ, Z.pow_succ_r by lia.
    assert (Hpow : (0 < 2 ^ Z.of_nat (length s))%Z) by (apply Z.pow_pos_nonneg; lia).
    destruct Hc as [-> | ->]; cbn [Py.int2_acc Py.bit_value Ascii.eqb]; simpl.
    + destruct (IH (2 * a + 0)%Z Hs ltac:(lia)) as (v & Hv & Hb).
      exists v. split; [done | nia].
    + destruct (IH (2 * a + 1)%Z Hs ltac:(lia)) as (v & Hv & Hb).
      exists v. split; [done | nia].
Qed.

Lemma int2_total s :
  binary s -> s <> [] ->
  exists v, Py.int2 s = Ok v /\ Py.int2_acc 0 s = Some v /\
            (0 <= v < 2 ^ Z.of_nat (length s))%Z.
Proof.
  intros Hs Hne.
  destruct (int2_acc_total s 0 Hs ltac:(lia)) as (v & Hv & Hb).
  exists v. split; [by apply PyFacts.int2_of_acc|]. split; [done | lia].
Qed.

Lemma int2_inj s t v :
  length s = length t -> binary s -> binary t ->
  Py.int2 s = Ok v -> Py.int2 t = Ok v -> s = t.
Proof.
  intros Hlen Hs Ht Hsv Htv.
  destruct s as [|c s]; [by destruct t|]. destruct t as [|d t]; [done|].
  destruct (int2_total (c :: s) Hs ltac:(done)) as (v1 & H1 & H1' & _).
  destruct (int2_total (d :: t) Ht ltac:(done)) as (v2 & H2 & H2' & _).
  rewrite H1 in Hsv. rewrite H2 in Htv. inversion Hsv; inversion Htv; subst.
  apply (int2_acc_inj _ _ 0%Z 0%Z Hlen Hs Ht). congruence.
Qed.

(** Parsing a well-formed header followed by the bits of some bytes: the
    outcome only depends on the checksum comparison. *)
Lemma parse_payload self l c d pad x :
  length l = 32 -> length c = 32 ->
  Py.int2 l = Ok (Z.of_nat (length d)) -> Py.int2 c = Ok x ->
  _parse_bit_string self (magic_bits ++ l ++ c ++ data_bits d ++ pad)
  = if (Py.crc32 d =? x)%Z then Ok d else Err (ValueError msg_checksum).
Proof.
  intros Hl Hc Hlen Hx. rewrite parse_with_magic by done.
  unfold parse_tail. rewrite Hlen. cbn [bind].
  rewrite length_app, data_bits_length.
  destruct (Z.ltb_spec (Z.of_nat (8 * length d + length pad))
              (Z.of_nat (length d) * 8)); [lia|].
  replace (Z.to_nat (Z.of_nat (length d) * 8)) with (length (data_bits d))
    by (rewrite data_bits_length; lia).
  rewrite take_app_length, data_bits_concat.
  rewrite bytes_of_chunks by apply data_chunks_length.
  rewrite decode_data_chunks. cbn [bind]. rewrite Hx. cbn [bind].
  by destruct (Py.crc32 d =? x)%Z.
Qed.

(** Parsing a well-formed header followed by too few bits. *)
Lemma parse_short self l c rest n :
  length l = 32 -> length c = 32 -> Py.int2 l = Ok n ->
  (Z.of_nat (length rest) < n * 8)%Z ->
  _parse_bit_string self (magic_bits ++ l ++ c ++ rest) = Err (ValueError msg_incomplete).
Proof.
  intros Hl Hc Hn Hshort. rewrite parse_with_magic by done.
  unfold parse_tail. rewrite Hn. cbn [bind].
  by destruct (Z.ltb_spec (Z.of_nat (length rest)) (n * 8)); [|lia].
Qed.

Lemma decode_no_frames self :
  decode_pixels_to_data self [] = Err (Py.invalid_literal []).
Proof. reflexivity. Qed.

(** ** Removing the last frame *)

Lemma prefix_after_header (hd d x last : list ascii) :
  x ++ last = hd ++ d -> length hd <= length x ->
  exists d', x = hd ++ d' /\ d' ++ last = d.
Proof.
  intros Heq Hlen. exists (drop (length hd) x).
  assert (Hx : x = hd ++ drop (length hd) x).
  { rewrite <- (take_drop (length hd) x) at 1. f_equal.
    apply (f_equal (take (length hd))) in Heq.
    by rewrite take_app_le, take_app_length in Heq by done. }
  split; [done|]. rewrite Hx, <- app_assoc in Heq at 1. by apply app_inv_head in Heq.
Qed.

Lemma truncated_bits_rejected self data (x last : list ascii) :
  fits32 data -> x ++ last = _prepare_bit_string self data ->
  96 <= length x -> 0 < length last ->
  _parse_bit_string self x = Err (ValueError msg_incomplete).
Proof.
  intros Hfit Heq Hx Hlast. rewrite prepare_fields in Heq.
  rewrite !app_assoc in Heq.
  destruct (prefix_after_header _ _ _ _ Heq) as (d' & -> & Hd).
  { rewrite !length_app, magic_bits_length, length_field_length,
      checksum_field_length by done. lia. }
  rewrite <- !app_assoc.
  apply (parse_short self _ _ d' (Z.of_nat (length data)));
    auto using length_field_length, checksum_field_length.
  - apply PyFacts.int2_format_b. lia.
  - apply (f_equal length) in Hd. rewrite length_app, data_bits_length in Hd. lia.
Qed.

(** C8, as stated, fails on a single-frame output: the two bytes of [hi] fit
    one 8 x 8 frame, which therefore holds all 16 payload bits; with that
    frame removed Decode is given no frame and fails in [int('', 2)], not
    with the truncation error. *)
Lemma single_frame_removed_not_truncation :
  exists f,
    encode_data_to_pixels (FractalEncoder_init 8 8) hi = Ok [f] /\
    _fractal_frame_to_bits (FractalEncoder_init 8 8) f
    = Ok (_prepare_bit_string (FractalEncoder_init 8 8) hi ++ replicate 80 "0"%char) /\
    decode_pixels_to_data (FractalEncoder_init 8 8) (removelast [f])
    = Err (ValueError "invalid literal for int() with base 2: ''") /\
    decode_pixels_to_data (FractalEncoder_init 8 8) (removelast [f])
    <> Err (ValueError msg_incomplete).
Proof.
  eexists. split; [vm_compute; reflexivity|].
  split; [vm_compute; reflexivity|]. split; [reflexivity|]. by vm_compute.
Qed.

(** C8, amended. For every payload that fits the length field and valid
    dimensions: when Encode yields two or more frames, Decode without the
    last one fails with the truncation error (Incomplete data); when Encode
    yields a single frame, removing it leaves no frame and Decode fails with
    the [ValueError] of [int('', 2)]. Decode never succeeds once the last
    frame is removed. *)
Theorem last_frame_removed (p : list byte) (w h : nat) :
  fits32 p -> 96 <= w * h * 3 ->
  exists frames,
    encode_data_to_pixels (FractalEncoder_init w h) p = Ok frames /\
    1 <= length frames /\
    (2 <= length frames ->
     decode_pixels_to_data (FractalEncoder_init w h) (removelast frames)
     = Err (ValueError msg_incomplete)) /\
    (length frames = 1 ->
     decode_pixels_to_data (FractalEncoder_init w h) (removelast frames)
     = Err (Py.invalid_literal [])).
Proof.
  intros Hfit Hcap.
  destruct (encode_structure w h p ltac:(lia))
    as (full & last & Henc & Hcat & Hfull & Hlast & Hbits).
  eexists. split; [exact Henc|].
  rewrite map_app, length_app, length_map. cbn [map length].
  rewrite removelast_last. split; [lia|]. split.
  - intros Htwo. unfold decode_pixels_to_data. rewrite Hbits. cbn [bind].
    apply (truncated_bits_rejected _ p _ last Hfit Hcat); [|lia].
    rewrite (length_concat_fixed (w * h * 3)) by done.
    destruct full; [simpl in Htwo; lia | simpl; nia].
  - intros Hone. destruct full; [reflexivity | simpl in Hone; lia].
Qed.

(** [hi] in 6 x 6 frames needs two of them (112 bits, 108 per frame). *)
Lemma last_frame_removed_witness :
  fits32 hi /\ 96 <= 6 * 6 * 3 /\
  exists frames,
    encode_data_to_pixels (FractalEncoder_init 6 6) hi = Ok frames /\
    1 <= length frames /\
    (2 <= length frames ->
     decode_pixels_to_data (FractalEncoder_init 6 6) (removelast frames)
     = Err (ValueError msg_incomplete)) /\
    (length frames = 1 ->
     decode_pixels_to_data (FractalEncoder_init 6 6) (removelast frames)
     = Err (Py.invalid_literal [])).
Proof.
  split; [reflexivity|]. split; [vm_compute; lia|].
  apply (last_frame_removed hi 6 6); [reflexivity | vm_compute; lia].
Defined.

(** ** Corrupting one channel of the frames *)

Definition set_channel (c : nat) (v : Z) (p : pixel) : pixel :=
  let '(r, g, b) := p in
  match c with
  | 0 => (v, g, b)
  | 1 => (r, v, b)
  | _ => (r, g, v)
  end.

(** The frames with the channel that carries bit [k] of the stream (frame
    [k / capacity], then cell and channel in row-major order) overwritten
    with the value [v]: the corruption the tamper-detection property is
    about. *)
Definition tamper (self : FractalEncoder) (frames : list frame) (k : nat) (v : Z)
  : list frame :=
  let cap := pixels_per_frame self * 3 in
  let off := k mod cap in
  let cell := off / 3 in
  alter (alter (alter (set_channel (off mod 3) v) (cell mod width self))
           (cell / width self))
        (k / cap) frames.

(** The written value and the new one lie on different sides of 128. *)
Definition crosses (written v : Z) : Prop := threshold written <> threshold v.

Lemma length_flat_map_fixed {A B} (g : A -> list B) n (l : list A) :
  Forall (fun a => length (g a) = n) l -> length (flat_map g l) = length l * n.
Proof.
  induction 1 as [|a l Ha _ IH]; simpl; [done|].
  rewrite length_app, IH, Ha. lia.
Qed.

(** Changing one element changes one fixed-size piece of the flattened list. *)
Lemma flat_map_alter {A B} (g : A -> list B) (t : A -> A) (u : B -> B) n j (l : list A) :
  forall i,
  Forall (fun a => length (g a) = n) l -> j < n ->
  (forall a, l !! i = Some a -> g (t a) = alter u j (g a)) ->
  i < length l ->
  flat_map g (alter t i l) = alter u (i * n + j) (flat_map g l).
Proof.
  induction l as [|a l IH]; intros i Hall Hj Ht Hi; [simpl in Hi; lia|].
  apply Forall_cons in Hall as [Ha Hall]. destruct i as [|i]; cbn [alter list_alter flat_map].
  - rewrite (Ht a) by done. cbn [Nat.mul Nat.add].
    by rewrite alter_app_l by lia.
  - rewrite (IH i) by (done || (simpl in Hi; lia)).
    replace (S i * n + j) with (length (g a) + (i * n + j)) by (rewrite Ha; lia).
    by rewrite alter_app_r.
Qed.

Lemma pixel_bits_set_channel c v p :
  c < 3 -> pixel_bits (set_channel c v p) = alter (fun _ => threshold v) c (pixel_bits p).
Proof.
  intros Hc. destruct p as [[r g] b].
  destruct c as [|[|[|c]]]; [done | done | done | lia].
Qed.

Lemma concat_flat_map {A} (f : list (list A)) : concat f = flat_map (fun row => row) f.
Proof. by rewrite flat_map_concat_map, map_id. Qed.

Section Tamper.
Variables w h : nat.
Local Abbreviation self := (FractalEncoder_init w h).

Lemma shaped_alter (f : frame) y x (t : pixel -> pixel) :
  shaped w h f -> shaped w h (alter (alter t x) y f).
Proof.
  intros [Hh Hrows]. split; [by rewrite length_alter|].
  apply Forall_alter; [done|]. intros row _ Hrow. by rewrite length_alter.
Qed.

Lemma frame_bits_length (f : frame) : shaped w h f -> length (frame_bits f) = w * h * 3.
Proof.
  intros [Hh Hrows]. unfold frame_bits.
  rewrite (length_flat_map_fixed pixel_bits 3).
  - rewrite (length_concat_fixed w) by done. lia.
  - apply Forall_forall. by intros [[r g] b] _.
Qed.

(** One frame: overwriting channel [c] of cell (y, x) changes bit
    [3 * (y * w + x) + c] of the frame, and nothing else. *)
Lemma frame_bits_alter (f : frame) y x c v :
  shaped w h f -> y < h -> x < w -> c < 3 ->
  frame_bits (alter (alter (set_channel c v) x) y f)
  = alter (fun _ => threshold v) ((y * w + x) * 3 + c) (frame_bits f).
Proof.
  intros [Hh Hrows] Hy Hx Hc. unfold frame_bits.
  rewrite !concat_flat_map.
  rewrite (flat_map_alter (fun row => row) (alter (set_channel c v) x)
             (set_channel c v) w x f y); [|done|done|done|lia].
  apply (flat_map_alter pixel_bits (set_channel c v) (fun _ => threshold v) 3 c).
  - apply Forall_forall. by intros [[r g] b] _.
  - done.
  - intros p _. by apply pixel_bits_set_channel.
  - rewrite <- concat_flat_map, (length_concat_fixed w) by done. nia.
Qed.

(** The whole sequence: the corruption changes bit [k] of what Decode reads. *)
Lemma tamper_bits (frames : list frame) k v :
  Forall (shaped w h) frames -> k < length frames * (w * h * 3) ->
  frames_to_bits self (tamper self frames k v)
  = Ok (alter (fun _ => threshold v) k (flat_map frame_bits frames)).
Proof.
  intros Hall Hk. unfold tamper. cbn [pixels_per_frame width FractalEncoder_init].
  set (cap := w * h * 3) in *.
  assert (Hcap : 0 < cap) by (destruct cap; lia).
  set (off := k mod cap). set (cell := off / 3).
  assert (Hoff : off < cap) by (apply Nat.mod_upper_bound; lia).
  assert (Hfi : k / cap < length frames) by (apply Nat.Div0.div_lt_upper_bound; lia).
  assert (Hcell : cell < w * h) by (apply Nat.Div0.div_lt_upper_bound; lia).
  assert (Hw : 0 < w) by (destruct w; lia).
  assert (Hx : cell mod w < w) by (apply Nat.mod_upper_bound; lia).
  assert (Hy : cell / w < h) by (apply Nat.Div0.div_lt_upper_bound; lia).
  assert (Hc : off mod 3 < 3) by (apply Nat.mod_upper_bound; lia).
  rewrite frames_to_bits_shaped.
  - f_equal.
    rewrite (flat_map_alter frame_bits _ (fun _ => threshold v) cap off frames (k / cap)).
    + f_equal. pose proof (Nat.div_mod_eq k cap). unfold off. lia.
    + eapply Forall_impl; [exact Hall|]. intros f Hf. by apply frame_bits_length.
    + done.
    + intros f Hf. pose proof (Forall_lookup_1 _ _ _ _ Hall Hf) as Hsh.
      rewrite frame_bits_alter by done. f_equal.
      pose proof (Nat.div_mod_eq cell w). pose proof (Nat.div_mod_eq off 3).
      unfold cell in *. lia.
    + done.
  - apply Forall_alter; [done|]. intros f _ Hf. by apply shaped_alter.
Qed.

End Tamper.

(** ** Parsing a stream with one bit changed *)

Lemma alter_middle {A} (t : A -> A) (l : list A) i a :
  l !! i = Some a -> alter t i l = take i l ++ t a :: drop (S i) l.
Proof.
  intros Ha. pose proof (lookup_lt_Some _ _ _ Ha) as Hi.
  rewrite <- (take_drop_middle l i a Ha) at 1.
  rewrite alter_app_r_alt by (rewrite length_take; lia).
  rewrite length_take. by replace (i - i `min` length l) with 0 by lia.
Qed.

Lemma binary_alter s k c : binary s -> is_bit c -> binary (alter (fun _ => c) k s).
Proof. intros Hs Hc. apply Forall_alter; [done|]. by intros. Qed.

(** Every string of eight bits is the [format] of the byte it decodes to. *)
Lemma format_of_bits (s : list ascii) :
  binary s -> length s = 8 ->
  exists b, decode_byte s = Ok b /\ Py.format_b 8 (Py.byte_val b) = s.
Proof.
  intros Hs Hlen.
  destruct (int2_total s Hs) as (v & Hv & _ & Hb); [by destruct s|].
  rewrite Hlen in Hb. change (2 ^ Z.of_nat 8)%Z with 256%Z in Hb.
  destruct (Byte.of_N (Z.to_N v)) as [b|] eqn:Hof.
  - exists b. assert (Hval : Py.byte_val b = v).
    { unfold Py.byte_val. apply Byte.to_of_N in Hof. rewrite Hof. lia. }
    split.
    + unfold decode_byte. rewrite Hv. cbn [bind]. unfold Py.to_byte.
      destruct (Z.leb_spec 0 v); [|lia]. destruct (Z.ltb_spec v 256); [|lia].
      cbn [andb]. by rewrite Hof.
    + apply (int2_inj _ _ v); auto.
      * rewrite PyFacts.format_byte_length. lia.
      * apply PyFacts.binary_format_b. lia.
      * rewrite Hval. apply PyFacts.int2_format_b. lia.
  - apply Byte.of_N_None_iff in Hof. lia.
Qed.

(** The byte whose bits are those of [a] with bit [j] replaced by [c]. *)
Definition flip_byte (j : nat) (c : ascii) (a : byte) : byte :=
  match decode_byte (alter (fun _ => c) j (Py.format_b 8 (Py.byte_val a))) with
  | Ok b => b
  | Err _ => a
  end.

Lemma format_flip_byte j c a :
  is_bit c ->
  Py.format_b 8 (Py.byte_val (flip_byte j c a))
  = alter (fun _ => c) j (Py.format_b 8 (Py.byte_val a)).
Proof.
  intros Hc. unfold flip_byte.
  destruct (format_of_bits (alter (fun _ => c) j (Py.format_b 8 (Py.byte_val a))))
    as (b & Hb & Hfmt).
  - apply binary_alter; [|done]. apply PyFacts.binary_format_b, PyFacts.byte_val_range.
  - by rewrite length_alter, PyFacts.format_byte_length.
  - by rewrite Hb.
Qed.

Lemma data_bits_alter data k c :
  is_bit c -> k < 8 * length data ->
  alter (fun _ => c) k (data_bits data)
  = data_bits (alter (flip_byte (k mod 8) c) (k / 8) data).
Proof.
  intros Hc Hk. unfold data_bits. symmetry.
  rewrite (flat_map_alter _ (flip_byte (k mod 8) c) (fun _ => c) 8 (k mod 8)).
  - f_equal. pose proof (Nat.div_mod_eq k 8). lia.
  - apply Forall_forall. intros b _. apply PyFacts.format_byte_length.
  - apply Nat.mod_upper_bound. lia.
  - intros a _. by apply format_flip_byte.
  - apply Nat.Div0.div_lt_upper_bound. lia.
Qed.

Lemma alter_changes (s : list ascii) k c :
  k < length s -> c <> char_at s k -> alter (fun _ => c) k s <> s.
Proof.
  intros Hk Hc Heq. apply Hc.
  destruct (lookup_lt_is_Some_2 s k Hk) as [d Hd].
  unfold char_at. rewrite (nth_lookup_Some _ _ _ _ Hd).
  apply (f_equal (fun l => l !! k)) in Heq.
  rewrite list_lookup_alter_eq, Hd in Heq. simpl in Heq. congruence.
Qed.

Lemma char_at_app_l (s t : list ascii) k :
  k < length s -> char_at (s ++ t) k = char_at s k.
Proof. intros Hk. unfold char_at. by apply app_nth1. Qed.

(** A change of one bit of the checksum field or of the payload bits is
    always answered by the checksum error. *)
Lemma tampered_stream_rejected self data pad k c :
  fits32 data -> 64 <= k < 96 + 8 * length data ->
  is_bit c -> c <> char_at (_prepare_bit_string self data) k ->
  _parse_bit_string self (alter (fun _ => c) k (_prepare_bit_string self data ++ pad))
  = Err (ValueError msg_checksum).
Proof.
  intros Hfit Hk Hc Hne.
  assert (Hchg : alter (fun _ => c) k (_prepare_bit_string self data ++ pad)
                 <> _prepare_bit_string self data ++ pad).
  { apply alter_changes.
    - rewrite length_app, prepare_length by done. lia.
    - rewrite char_at_app_l by (rewrite prepare_length by done; lia). done. }
  rewrite prepare_fields, <- !app_assoc in *.
  set (L := Py.format_b 32 (Z.of_nat (length data))) in *.
  set (C := Py.format_b 32 (Py.crc32 data)) in *.
  assert (HL : length L = 32) by by apply length_field_length.
  assert (HC : length C = 32) by apply checksum_field_length.
  assert (HLv : Py.int2 L = Ok (Z.of_nat (length data)))
    by (apply PyFacts.int2_format_b; lia).
  assert (HCv : Py.int2 C = Ok (Py.crc32 data))
    by apply PyFacts.int2_format_b, CrcFacts.crc32_range.
  pose proof magic_bits_length as HM.
  rewrite alter_app_r_alt in * by lia.
  rewrite alter_app_r_alt in * by lia.
  rewrite HM, HL in *.
  destruct (Nat.lt_ge_cases k 96) as [Hlt|Hge].
  - (* the bit lies in the checksum field *)
    rewrite alter_app_l in * by lia.
    set (C' := alter (fun _ => c) (k - 32 - 32) C) in *.
    assert (HC' : length C' = 32) by (unfold C'; by rewrite length_alter).
    assert (Hbin : binary C').
    { apply binary_alter; [|done]. apply PyFacts.binary_format_b, CrcFacts.crc32_range. }
    destruct (int2_total C' Hbin) as (x & Hx & _); [by destruct C'|].
    rewrite (parse_payload self L C' data pad x) by done.
    destruct (Z.eqb_spec (Py.crc32 data) x) as [<-|]; [|done].
    exfalso. apply Hchg. do 3 f_equal.
    apply (int2_inj _ _ (Py.crc32 data)); auto; [lia|].
    apply PyFacts.binary_format_b, CrcFacts.crc32_range.
  - (* the bit lies in the payload *)
    rewrite alter_app_r_alt in * by lia. rewrite HC in *.
    rewrite alter_app_l in * by (rewrite data_bits_length; lia).
    rewrite data_bits_alter in * by (done || lia).
    set (j := k - 32 - 32 - 32) in *.
    destruct (lookup_lt_is_Some_2 data (j / 8)) as [a Ha].
    { apply Nat.Div0.div_lt_upper_bound. lia. }
    rewrite (alter_middle _ _ _ _ Ha) in *.
    set (a' := flip_byte (j mod 8) c a) in *.
    assert (Hlen : length (take (j / 8) data ++ a' :: drop (S (j / 8)) data)
                   = length data).
    { rewrite <- (take_drop_middle data (j / 8) a Ha) at 3.
      by rewrite !length_app. }
    rewrite (parse_payload self L C _ pad (Py.crc32 data)) by (done || by rewrite Hlen).
    destruct (Z.eqb_spec
                (Py.crc32 (take (j / 8) data ++ a' :: drop (S (j / 8)) data))
                (Py.crc32 data)) as [Heq|]; [|done].
    exfalso. rewrite <- (take_drop_middle data (j / 8) a Ha) in Heq at 3.
    revert Heq. apply CrcFacts.crc32_one_byte.
    intros ->. apply Hchg. by rewrite (take_drop_middle _ _ _ Ha).
Qed.

(** ** Tamper detection *)

Definition get_channel (c : nat) (p : pixel) : Z :=
  let '(r, g, b) := p in
  match c with
  | 0 => r
  | 1 => g
  | _ => b
  end.

(** The value of the channel that carries bit [k] of the stream. *)
Definition channel_at (self : FractalEncoder) (frames : list frame) (k : nat)
  : option Z :=
  let cap := pixels_per_frame self * 3 in
  let off := k mod cap in
  let cell := off / 3 in
  match frames !! (k / cap) with
  | None => None
  | Some f =>
      match f !! (cell / width self) with
      | None => None
      | Some row =>
          match row !! (cell mod width self) with
          | None => None
          | Some px => Some (get_channel (off mod 3) px)
          end
      end
  end.

Lemma alter_lookup_id {A} (t : A -> A) (l : list A) i a :
  l !! i = Some a -> t a = a -> alter t i l = l.
Proof.
  intros Ha Ht. rewrite (alter_middle t l i a Ha), Ht.
  by apply take_drop_middle.
Qed.

Lemma set_get_channel c p : set_channel c (get_channel c p) p = p.
Proof. destruct p as [[r g] b]. by destruct c as [|[|c]]. Qed.

(** Writing back the value a channel already has changes nothing. *)
Lemma tamper_same self frames k written :
  channel_at self frames k = Some written -> tamper self frames k written = frames.
Proof.
  unfold channel_at, tamper. intros H.
  destruct (frames !! (k `div` (pixels_per_frame self * 3))) as [f|] eqn:Hf; [|done].
  destruct (f !! _) as [row|] eqn:Hrow; [|done].
  destruct (row !! _) as [px|] eqn:Hpx; [|done].
  inversion H; subst. apply (alter_lookup_id _ _ _ f Hf).
  apply (alter_lookup_id _ _ _ row Hrow).
  apply (alter_lookup_id _ _ _ px Hpx).
  apply set_get_channel.
Qed.

(** The bit Decode reads at [k] is the threshold of the channel at [k]. *)
Lemma bit_of_channel w h (frames : list frame) k written :
  Forall (shaped w h) frames -> k < length frames * (w * h * 3) ->
  channel_at (FractalEncoder_init w h) frames k = Some written ->
  char_at (flat_map frame_bits frames) k = threshold written.
Proof.
  intros Hall Hk Hch.
  pose proof (tamper_bits w h frames k written Hall Hk) as Hb.
  rewrite (tamper_same _ _ _ _ Hch), frames_to_bits_shaped in Hb by done.
  assert (Heq : flat_map frame_bits frames
                = alter (fun _ => threshold written) k (flat_map frame_bits frames))
    by congruence.
  assert (Hlen : k < length (flat_map frame_bits frames)).
  { rewrite (length_flat_map_fixed frame_bits (w * h * 3)); [done|].
    eapply Forall_impl; [exact Hall|]. intros f Hf. by apply frame_bits_length. }
  destruct (lookup_lt_is_Some_2 _ k Hlen) as [d Hd].
  unfold char_at. rewrite (nth_lookup_Some _ _ _ _ Hd).
  apply (f_equal (fun l => l !! k)) in Heq.
  rewrite list_lookup_alter_eq, Hd in Heq. simpl in Heq. congruence.
Qed.

Lemma encoded_shaped w h data :
  0 < w * h * 3 ->
  exists frames,
    encode_data_to_pixels (FractalEncoder_init w h) data = Ok frames /\
    Forall (shaped w h) frames /\
    length (_prepare_bit_string (FractalEncoder_init w h) data)
      <= length frames * (w * h * 3) /\
    flat_map frame_bits frames
    = _prepare_bit_string (FractalEncoder_init w h) data
      ++ replicate (length frames * (w * h * 3)
                    - length (_prepare_bit_string (FractalEncoder_init w h) data))
           "0"%char.
Proof.
  intros Hcap.
  destruct (encoded_bits w h data Hcap) as (frames & Henc & Hlen & Hbits).
  exists frames. split; [done|].
  assert (Hsh : Forall (shaped w h) frames).
  { rewrite encode_chunks in Henc by done.
    assert (Hfr : map (_bits_to_fractal_frame (FractalEncoder_init w h))
                    (chunks_of (w * h * 3)
                       (frame_count
                          (length (_prepare_bit_string (FractalEncoder_init w h) data))
                          (w * h * 3))
                       (_prepare_bit_string (FractalEncoder_init w h) data))
                  = frames) by congruence.
    rewrite <- Hfr. apply Forall_forall. intros f Hf.
    apply list_elem_of_In, in_map_iff in Hf. destruct Hf as (chunk & <- & Hin).
    apply bits_to_frame_spec.
    pose proof (chunks_of_binary (w * h * 3)
                  (frame_count (length (_prepare_bit_string (FractalEncoder_init w h) data))
                     (w * h * 3))
                  _ (binary_prepare (FractalEncoder_init w h) data)) as Hall.
    rewrite Forall_forall in Hall. apply list_elem_of_In in Hin.
    by destruct (Hall chunk Hin). }
  split; [done|]. split.
  - rewrite Hlen. by apply frame_count_enough.
  - rewrite frames_to_bits_shaped in Hbits by done. congruence.
Qed.

(** C4, as stated, fails. The payload FF FF FF FF has CRC-32 FFFFFFFF; in an
    8 x 8 frame, the channel that carries the last bit of the length field
    (bit 63) is written as 0. Changed to 255, it crosses the threshold, the
    declared length becomes 5 instead of 4, and Decode returns five bytes
    without any error: the fifth byte comes from the padding and the
    checksum of the five bytes is FFFFFFFF too. *)
Definition ffff : list byte := ["255"; "255"; "255"; "255"]%byte.

Lemma tamper_undetected :
  exists frames,
    encode_data_to_pixels (FractalEncoder_init 8 8) ffff = Ok frames /\
    channel_at (FractalEncoder_init 8 8) frames 63 = Some 0%Z /\
    crosses 0 255 /\
    decode_pixels_to_data (FractalEncoder_init 8 8)
      (tamper (FractalEncoder_init 8 8) frames 63 255)
    = Ok (ffff ++ ["000"%byte]).
Proof.
  eexists. split; [vm_compute; reflexivity|].
  split; [reflexivity|]. split; [by vm_compute|]. vm_compute. reflexivity.
Qed.

(** Two more departures: a crossing in the magic field is answered by the
    format error, and one in the padding is not noticed at all (the payload
    is returned unchanged). *)
Lemma tamper_magic_and_padding :
  exists frames,
    encode_data_to_pixels (FractalEncoder_init 8 8) ffff = Ok frames /\
    decode_pixels_to_data (FractalEncoder_init 8 8)
      (tamper (FractalEncoder_init 8 8) frames 1 0)
    = Err (ValueError msg_bad_magic) /\
    decode_pixels_to_data (FractalEncoder_init 8 8)
      (tamper (FractalEncoder_init 8 8) frames 150 255)
    = Ok ffff.
Proof.
  eexists. split; [vm_compute; reflexivity|]. split; vm_compute; reflexivity.
Qed.

(** C4, amended. For every payload that fits the length field and valid
    dimensions, overwriting the single channel of the encoded frames that
    carries a bit of the checksum field or of the payload (bits 64 to
    [96 + 8 * len(p) - 1] of the stream) with a value on the other side of the
    128 threshold makes Decode fail with the checksum error. *)
Theorem tamper_detected (p : list byte) (w h k : nat) (v written : Z)
    (frames : list frame) :
  fits32 p -> 96 <= w * h * 3 -> 64 <= k < 96 + 8 * length p ->
  encode_data_to_pixels (FractalEncoder_init w h) p = Ok frames ->
  channel_at (FractalEncoder_init w h) frames k = Some written ->
  crosses written v ->
  decode_pixels_to_data (FractalEncoder_init w h)
    (tamper (FractalEncoder_init w h) frames k v)
  = Err (ValueError msg_checksum).
Proof.
  intros Hfit Hcap Hk Henc Hch Hcross.
  destruct (encoded_shaped w h p ltac:(lia)) as (frames' & Henc' & Hsh & Hlen & Hbits).
  assert (frames' = frames) as -> by congruence.
  rewrite prepare_length in Hlen by done.
  unfold decode_pixels_to_data.
  rewrite tamper_bits by (done || lia). cbn [bind].
  pose proof (bit_of_channel w h frames k written Hsh ltac:(lia) Hch) as Hbit.
  rewrite Hbits in Hbit |- *.
  rewrite char_at_app_l in Hbit by (rewrite prepare_length by done; lia).
  apply tampered_stream_rejected; [done | done | |].
  - unfold threshold. destruct (128 <=? v)%Z; [by right | by left].
  - rewrite Hbit. intros Heq. by apply Hcross.
Qed.

Definition hi_frames : list frame :=
  Eval vm_compute in
    match encode_data_to_pixels (FractalEncoder_init 8 8) hi with
    | Ok frames => frames
    | Err _ => []
    end.

(** The first payload bit of [hi] (bit 96, a 0 written as 0) raised to 128. *)
Lemma tamper_detected_witness :
  decode_pixels_to_data (FractalEncoder_init 8 8)
    (tamper (FractalEncoder_init 8 8) hi_frames 96 128)
  = Err (ValueError msg_checksum).
Proof.
  apply (tamper_detected hi 8 8 96 128 0 hi_frames).
  - reflexivity.
  - vm_compute; lia.
  - vm_compute; lia.
  - vm_compute; reflexivity.
  - reflexivity.
  - by vm_compute.
Defined.

(** ** The failure modes of Decode *)

(** Only [ValueError] can come out of a computation. *)
Definition value_errors_only {A} (r : result A) : Prop :=
  forall e, r = Err e -> class_of e = CValueError.

Lemma veo_ok {A} (a : A) : value_errors_only (Ok a).
Proof. by intros e He. Qed.

Lemma veo_value_error {A} m : value_errors_only (@Err A (ValueError m)).
Proof. intros e He. by inversion He. Qed.

Lemma veo_bind {A B} (r : result A) (k : A -> result B) :
  value_errors_only r -> (forall a, value_errors_only (k a)) ->
  value_errors_only (let* a := r in k a).
Proof.
  intros Hr Hk e He. destruct r as [a|e']; simpl in He.
  - by apply (Hk a).
  - inversion He; subst. by apply Hr.
Qed.

Lemma veo_mapM {A B} (f : A -> result B) xs :
  (forall x, value_errors_only (f x)) -> value_errors_only (mapM f xs).
Proof.
  intros Hf. induction xs as [|x xs IH]; cbn [mapM]; [apply veo_ok|].
  apply veo_bind; [done|]. intros y. apply veo_bind; [done|]. intros ys. apply veo_ok.
Qed.

Lemma veo_int2 s : value_errors_only (Py.int2 s).
Proof.
  unfold Py.int2. destruct s; [apply veo_value_error|].
  destruct (Py.int2_acc _ _); [apply veo_ok | apply veo_value_error].
Qed.

Lemma veo_chr n : value_errors_only (Py.chr n).
Proof. unfold Py.chr. destruct (_ && _); [apply veo_ok | apply veo_value_error]. Qed.

Lemma veo_to_byte n : value_errors_only (Py.to_byte n).
Proof.
  unfold Py.to_byte. destruct (_ && _); [|apply veo_value_error].
  destruct (Byte.of_N _); [apply veo_ok | apply veo_value_error].
Qed.

Lemma veo_range0 a b : value_errors_only (Py.range0 a b).
Proof. unfold Py.range0. destruct b; [apply veo_value_error | apply veo_ok]. Qed.

(** Whatever goes wrong in [_parse_bit_string], the exception is a [ValueError]. *)
Lemma parse_value_errors_only self bits :
  value_errors_only (_parse_bit_string self bits).
Proof.
  unfold _parse_bit_string.
  apply veo_bind; [apply veo_range0|]. intros idx.
  apply veo_bind.
  { apply veo_mapM. intros i. apply veo_bind; [apply veo_int2 | apply veo_chr]. }
  intros got. destruct (negb _); [apply veo_value_error|].
  apply veo_bind; [apply veo_int2|]. intros n.
  destruct (Z.ltb _ _); [apply veo_value_error|].
  apply veo_bind; [apply veo_range0|]. intros idx'.
  apply veo_bind.
  { apply veo_mapM. intros i. apply veo_bind; [apply veo_int2 | apply veo_to_byte]. }
  intros d. apply veo_bind; [apply veo_int2|]. intros x.
  destruct (negb _); [apply veo_value_error | apply veo_ok].
Qed.

(** A character read from eight bits determines them. *)
Lemma decode_magic_char s :
  binary s -> length s = 8 ->
  exists ch, (let* n := Py.int2 s in Py.chr n) = Ok ch /\ s = Py.format_b 8 (Py.ord ch).
Proof.
  intros Hs Hlen.
  destruct (int2_total s Hs) as (v & Hv & _ & Hb); [by destruct s|].
  rewrite Hlen in Hb. change (2 ^ Z.of_nat 8)%Z with 256%Z in Hb.
  exists (ascii_of_N (Z.to_N v)). split.
  - rewrite Hv. cbn [bind]. unfold Py.chr.
    destruct (Z.leb_spec 0 v); [|lia]. by destruct (Z.ltb_spec v 256); [|lia].
  - assert (Hord : Py.ord (ascii_of_N (Z.to_N v)) = v).
    { unfold Py.ord. rewrite N_ascii_embedding by lia. lia. }
    rewrite Hord. apply (int2_inj _ _ v); auto.
    + rewrite (PyFacts.format_b_length 8); [done | | lia].
      change (2 ^ Z.of_nat 8)%Z with 256%Z. lia.
    + apply PyFacts.binary_format_b. lia.
    + apply PyFacts.int2_format_b. lia.
Qed.

Lemma split_in_four (m : list ascii) :
  length m = 32 ->
  m = Py.slice 0 8 m ++ Py.slice 8 16 m ++ Py.slice 16 24 m ++ Py.slice 24 32 m.
Proof.
  intros Hm. unfold Py.slice.
  change (8 - 0) with 8. change (16 - 8) with 8.
  change (24 - 16) with 8. change (32 - 24) with 8.
  rewrite <- (take_drop 8 m) at 1. f_equal.
  rewrite <- (take_drop 8 (drop 8 m)) at 1. f_equal.
  rewrite <- (take_drop 8 (drop 8 (drop 8 m))) at 1. rewrite !drop_drop. f_equal.
  cbn [Nat.add]. symmetry. apply take_ge. rewrite length_drop. lia.
Qed.

Lemma list_ascii_eqb_eq a b : list_ascii_eqb a b = true -> a = b.
Proof.
  unfold list_ascii_eqb. intros H. apply String.eqb_eq in H.
  apply (f_equal list_ascii_of_string) in H.
  by rewrite !list_ascii_of_string_of_list_ascii in H.
Qed.


(** [hi] in 6 x 6 frames: two frames. *)
Definition hi_frames_6 : list frame :=
  Eval vm_compute in
    match encode_data_to_pixels (FractalEncoder_init 6 6) hi with
    | Ok frames => frames
    | Err _ => []
    end.

(** * Further properties of the codec *)

(** ** The frames Encode yields *)

(** X1. Every frame Encode yields is an array of [height] rows of [width]
    cells, and read back in order the frames give the bit string followed by
    zero bits only, up to a whole number of frames. *)
Theorem encoded_frames_shape_and_padding (p : list byte) (w h : nat) :
  0 < w * h * 3 ->
  exists frames,
    encode_data_to_pixels (FractalEncoder_init w h) p = Ok frames /\
    Forall (shaped w h) frames /\
    frames_to_bits (FractalEncoder_init w h) frames
    = Ok (_prepare_bit_string (FractalEncoder_init w h) p
          ++ replicate (length frames * (w * h * 3)
                        - length (_prepare_bit_string (FractalEncoder_init w h) p))
               "0"%char).
Proof.
  intros Hcap.
  destruct (encoded_shaped w h p Hcap) as (frames & Henc & Hsh & _ & Hbits).
  exists frames. split; [done|]. split; [done|].
  by rewrite frames_to_bits_shaped, Hbits.
Qed.

Lemma encoded_frames_shape_and_padding_witness :
  0 < 6 * 6 * 3 /\
  exists frames,
    encode_data_to_pixels (FractalEncoder_init 6 6) hi = Ok frames /\
    Forall (shaped 6 6) frames /\
    frames_to_bits (FractalEncoder_init 6 6) frames
    = Ok (_prepare_bit_string (FractalEncoder_init 6 6) hi
          ++ replicate (length frames * (6 * 6 * 3)
                        - length (_prepare_bit_string (FractalEncoder_init 6 6) hi))
               "0"%char).
Proof.
  split; [vm_compute; lia|].
  apply (encoded_frames_shape_and_padding hi 6 6). vm_compute; lia.
Defined.

(** X2. Two payloads that fit the length field and encode to the same frames
    are the same payload. *)
Theorem encode_injective (p q : list byte) (w h : nat) :
  fits32 p -> fits32 q -> 0 < w * h * 3 ->
  encode_data_to_pixels (FractalEncoder_init w h) p
  = encode_data_to_pixels (FractalEncoder_init w h) q ->
  p = q.
Proof.
  intros Hp Hq Hcap Heq.
  destruct (codec_round_trip w h p Hp Hcap) as (fp & Hep & _ & Hdp).
  destruct (codec_round_trip w h q Hq Hcap) as (fq & Heq' & _ & Hdq).
  assert (fp = fq) as -> by congruence. congruence.
Qed.

Lemma encode_injective_witness : hi = hi.
Proof.
  apply (encode_injective hi hi 8 8); [reflexivity | reflexivity | vm_compute; lia |].
  reflexivity.
Defined.

(** ** Noise that does not cross the threshold *)

Fixpoint all2 {A} (r : A -> A -> bool) (l k : list A) : bool :=
  match l, k with
  | [], [] => true
  | a :: l', b :: k' => r a b && all2 r l' k'
  | _, _ => false
  end.

(** Both values are on the same side of the threshold 128. *)
Definition same_side (a b : Z) : bool := Bool.eqb (128 <=? a)%Z (128 <=? b)%Z.

Definition pixel_same_side (p q : pixel) : bool :=
  let '(r, g, b) := p in
  let '(r', g', b') := q in
  same_side r r' && same_side g g' && same_side b b'.

(** Two sequences of frames of the same shape whose channels agree side by
    side. *)
Definition frames_same_side (fs fs' : list frame) : bool :=
  all2 (all2 (all2 pixel_same_side)) fs fs'.

Lemma all2_length {A} (r : A -> A -> bool) l : forall k,
  all2 r l k = true -> length l = length k.
Proof.
  induction l as [|a l IH]; intros [|b k] H; simpl in *; try done.
  apply andb_true_iff in H as [_ H]. f_equal. by apply IH.
Qed.

Lemma all2_flat_map {A B} (r : A -> A -> bool) (g : A -> list B) l : forall k,
  (forall a b, r a b = true -> g a = g b) ->
  all2 r l k = true -> flat_map g l = flat_map g k.
Proof.
  induction l as [|a l IH]; intros [|b k] Hg H; simpl in *; try done.
  apply andb_true_iff in H as [Hab H]. by rewrite (Hg a b Hab), (IH k).
Qed.

Lemma all2_Forall {A} (r : A -> A -> bool) (P : A -> Prop) l : forall k,
  (forall a b, r a b = true -> P a -> P b) ->
  all2 r l k = true -> Forall P l -> Forall P k.
Proof.
  induction l as [|a l IH]; intros [|b k] HP H Hl; simpl in *; try done.
  apply andb_true_iff in H as [Hab H]. apply Forall_cons in Hl as [Ha Hl].
  constructor; eauto.
Qed.

Lemma same_side_threshold a b : same_side a b = true -> threshold a = threshold b.
Proof.
  unfold same_side, threshold. intros H. apply Bool.eqb_prop in H. by rewrite H.
Qed.

Lemma pixel_same_side_bits p q :
  pixel_same_side p q = true -> pixel_bits p = pixel_bits q.
Proof.
  destruct p as [[r g] b], q as [[r' g'] b']. unfold pixel_same_side, pixel_bits.
  rewrite !andb_true_iff. intros [[Hr Hg] Hb].
  by rewrite (same_side_threshold _ _ Hr), (same_side_threshold _ _ Hg),
    (same_side_threshold _ _ Hb).
Qed.

Lemma frame_same_side_bits (f f' : frame) :
  all2 (all2 pixel_same_side) f f' = true -> frame_bits f = frame_bits f'.
Proof.
  intros H. unfold frame_bits. rewrite !concat_flat_map, !flat_map_concat_map.
  rewrite <- !flat_map_concat_map.
  revert f' H. induction f as [|row f IH]; intros [|row' f'] H; simpl in *; try done.
  apply andb_true_iff in H as [Hrow H].
  rewrite !flat_map_app. f_equal; [|by apply IH].
  exact (all2_flat_map pixel_same_side pixel_bits row row' pixel_same_side_bits Hrow).
Qed.

Lemma frame_same_side_shaped w h (f f' : frame) :
  all2 (all2 pixel_same_side) f f' = true -> shaped w h f -> shaped w h f'.
Proof.
  intros H [Hh Hrows]. split.
  - by rewrite <- (all2_length _ _ _ H).
  - apply (all2_Forall (all2 pixel_same_side) (fun row => length row = w) f f');
      [|done|done].
    intros a b Hab Ha. by rewrite <- (all2_length _ _ _ Hab).
Qed.

(** X3. Decode tolerates any change of the channel values that keeps every
    channel on its side of 128: from such frames it returns the payload the
    original frames were encoded from. *)
Theorem noise_below_threshold_tolerated (p : list byte) (w h : nat)
    (frames noisy : list frame) :
  fits32 p -> 0 < w * h * 3 ->
  encode_data_to_pixels (FractalEncoder_init w h) p = Ok frames ->
  frames_same_side frames noisy = true ->
  decode_pixels_to_data (FractalEncoder_init w h) noisy = Ok p.
Proof.
  intros Hfit Hcap Henc Hside.
  destruct (encoded_shaped w h p Hcap) as (frames' & Henc' & Hsh & _ & Hbits).
  assert (frames' = frames) as -> by congruence.
  assert (Hsh' : Forall (shaped w h) noisy).
  { apply (all2_Forall _ _ _ _ (frame_same_side_shaped w h) Hside Hsh). }
  unfold decode_pixels_to_data. rewrite frames_to_bits_shaped by done. cbn [bind].
  rewrite <- (all2_flat_map _ frame_bits frames noisy frame_same_side_bits Hside).
  rewrite Hbits. by apply parse_prepared.
Qed.

(** The channels of [hi_frames] moved to 127 and 128. *)
Definition dim (v : Z) : Z := if (128 <=? v)%Z then 128%Z else 127%Z.

Definition hi_frames_dim : list frame :=
  Eval vm_compute in
    map (map (map (fun '(r, g, b) => (dim r, dim g, dim b)))) hi_frames.

Lemma noise_below_threshold_tolerated_witness :
  decode_pixels_to_data (FractalEncoder_init 8 8) hi_frames_dim = Ok hi.
Proof.
  apply (noise_below_threshold_tolerated hi 8 8 hi_frames hi_frames_dim).
  - reflexivity.
  - vm_compute; lia.
  - vm_compute; reflexivity.
  - vm_compute; reflexivity.
Defined.

(** ** Frames supplied beyond the encoded ones *)

(** X4. Whatever frames of the right shape follow a complete Encode output,
    Decode returns the payload: everything after the declared length is
    dropped. *)
Theorem trailing_frames_ignored (p : list byte) (w h : nat)
    (frames extra : list frame) :
  fits32 p -> 0 < w * h * 3 ->
  encode_data_to_pixels (FractalEncoder_init w h) p = Ok frames ->
  Forall (shaped w h) extra ->
  decode_pixels_to_data (FractalEncoder_init w h) (frames ++ extra) = Ok p.
Proof.
  intros Hfit Hcap Henc Hextra.
  destruct (encoded_shaped w h p Hcap) as (frames' & Henc' & Hsh & _ & Hbits).
  assert (frames' = frames) as -> by congruence.
  unfold decode_pixels_to_data.
  rewrite frames_to_bits_shaped by by apply Forall_app. cbn [bind].
  rewrite flat_map_app, Hbits, <- app_assoc. by apply parse_prepared.
Qed.

Definition grey_frame : frame := replicate 8 (replicate 8 (7, 200, 13)%Z).

Lemma trailing_frames_ignored_witness :
  decode_pixels_to_data (FractalEncoder_init 8 8) (hi_frames ++ [grey_frame; grey_frame])
  = Ok hi.
Proof.
  apply (trailing_frames_ignored hi 8 8 hi_frames [grey_frame; grey_frame]).
  - reflexivity.
  - vm_compute; lia.
  - vm_compute; reflexivity.
  - repeat constructor.
Defined.

(** ** What Decode accepts *)

Lemma bit_value_is_bit c d : Py.bit_value c = Some d -> is_bit c.
Proof.
  unfold Py.bit_value, is_bit.
  destruct (Ascii.eqb_spec c "0"); [by left|].
  destruct (Ascii.eqb_spec c "1"); [by right | done].
Qed.

Lemma int2_acc_binary s : forall a v, Py.int2_acc a s = Some v -> binary s.
Proof.
  induction s as [|c s IH]; intros a v H; [constructor|].
  cbn [Py.int2_acc] in H. destruct (Py.bit_value c) as [d|] eqn:Hd; [|done].
  constructor; [by eapply bit_value_is_bit | by eapply IH].
Qed.

Lemma int2_ok s v :
  Py.int2 s = Ok v -> binary s /\ s <> [] /\ Py.int2_acc 0 s = Some v.
Proof.
  unfold Py.int2. destruct s as [|c s]; [done|].
  destruct (Py.int2_acc 0 (c :: s)) as [v'|] eqn:Hacc; [|done].
  intros H. assert (v' = v) as -> by congruence.
  split; [by eapply int2_acc_binary|]. done.
Qed.

(** A number read from a field of [n] bits fits [n] bits, and the field is
    the [format] of that number. *)
Lemma int2_determines s v (n : nat) :
  Py.int2 s = Ok v -> length s = n -> 1 <= n ->
  (0 <= v < 2 ^ Z.of_nat n)%Z /\ s = Py.format_b n v.
Proof.
  intros Hv Hlen Hn. destruct (int2_ok s v Hv) as (Hbin & Hne & _).
  destruct (int2_total s Hbin Hne) as (v' & Hv' & _ & Hb).
  assert (v' = v) as -> by congruence. rewrite Hlen in Hb.
  split; [done|]. apply (int2_inj _ _ v); auto.
  - by rewrite PyFacts.format_b_length.
  - apply PyFacts.binary_format_b. lia.
  - apply PyFacts.int2_format_b. lia.
Qed.

Lemma mapM_ok {A B} (f : A -> result B) xs : forall ys,
  mapM f xs = Ok ys -> Forall2 (fun x y => f x = Ok y) xs ys.
Proof.
  induction xs as [|x xs IH]; intros ys H; cbn [mapM] in H.
  - inversion H. constructor.
  - destruct (f x) as [y|e] eqn:Hy; cbn [bind] in H; [|done].
    destruct (mapM f xs) as [ys'|e] eqn:Hys; cbn [bind] in H; [|done].
    inversion H; subst. constructor; [done | by apply IH].
Qed.

Lemma decode_byte_determines s b :
  decode_byte s = Ok b -> length s = 8 -> s = Py.format_b 8 (Py.byte_val b).
Proof.
  intros Hb Hlen.
  assert (Hbin : binary s).
  { unfold decode_byte in Hb. destruct (Py.int2 s) as [v|e] eqn:Hv; [|done].
    by destruct (int2_ok s v Hv). }
  destruct (format_of_bits s Hbin Hlen) as (b' & Hb' & Hfmt).
  assert (b' = b) as -> by congruence. done.
Qed.

Lemma concat_chunks_of cap n : forall bs : list ascii,
  concat (chunks_of cap n bs) = take (n * cap) bs.
Proof.
  induction n as [|n IH]; intros bs; [done|].
  rewrite chunks_of_S. cbn [concat]. rewrite IH.
  by rewrite take_take_drop.
Qed.

Lemma chunks_of_exact cap n : forall bs : list ascii,
  n * cap <= length bs -> Forall (fun c => length c = cap) (chunks_of cap n bs).
Proof.
  induction n as [|n IH]; intros bs Hlen; [constructor|].
  rewrite chunks_of_S. constructor.
  - rewrite length_take. simpl in Hlen. lia.
  - apply IH. rewrite length_drop. simpl in Hlen. lia.
Qed.

Lemma decoded_chunks_are_data_bits (chunks : list (list ascii)) : forall d,
  Forall (fun c => length c = 8) chunks ->
  mapM decode_byte chunks = Ok d -> concat chunks = data_bits d.
Proof.
  intros d Hlen Hd. apply mapM_ok in Hd.
  induction Hd as [|c b cs bs Hc _ IH]; [done|].
  apply Forall_cons in Hlen as [Hc8 Hlen].
  cbn [concat]. unfold data_bits. cbn [flat_map].
  rewrite <- (decode_byte_determines c b Hc Hc8). f_equal. by apply IH.
Qed.

Lemma mapM_length {A B} (f : A -> result B) xs ys :
  mapM f xs = Ok ys -> length ys = length xs.
Proof. intros H. apply mapM_ok in H. symmetry. by eapply Forall2_length. Qed.

(** The part of [_parse_bit_string] after the header fields were cut. *)
Lemma parse_fields self m l c rest :
  length m = 32 -> length l = 32 -> length c = 32 ->
  _parse_bit_string self (m ++ l ++ c ++ rest)
  = let* got := mapM (fun i => let* n := Py.int2 (Py.slice i (i + 8) m) in Py.chr n)
                  [0; 8; 16; 24] in
    if negb (list_ascii_eqb got magic) then Err (ValueError msg_bad_magic)
    else parse_tail l c rest.
Proof.
  intros Hm Hl Hc.
  destruct (header_split m l c rest Hm Hl Hc) as (Hm' & Hl' & Hc' & Hr).
  unfold _parse_bit_string. rewrite Hm', Hl', Hc', Hr. reflexivity.
Qed.

Lemma magic_char_field s ch :
  length s = 8 -> (let* n := Py.int2 s in Py.chr n) = Ok ch ->
  s = Py.format_b 8 (Py.ord ch).
Proof.
  intros Hlen H.
  assert (Hbin : binary s).
  { destruct (Py.int2 s) as [v|e] eqn:Hv; [|done]. by destruct (int2_ok s v Hv). }
  destruct (decode_magic_char s Hbin Hlen) as (ch' & Hch & Hfmt).
  assert (ch' = ch) as -> by congruence. done.
Qed.

Lemma slice8_length (m : list ascii) i :
  i + 8 <= length m -> length (Py.slice i (i + 8) m) = 8.
Proof. intros H. unfold Py.slice. rewrite length_take, length_drop. lia. Qed.

(** Past the magic check the first field is the four characters of
    [magic], eight bits each. *)
Lemma accepted_magic self m l c rest d :
  length m = 32 -> length l = 32 -> length c = 32 ->
  _parse_bit_string self (m ++ l ++ c ++ rest) = Ok d ->
  m = magic_bits /\ parse_tail l c rest = Ok d.
Proof.
  intros Hm Hl Hc H.
  rewrite parse_fields in H by done.
  destruct (mapM _ [0; 8; 16; 24]) as [got|e] eqn:Hgot; cbn [bind] in H; [|done].
  destruct (list_ascii_eqb got magic) eqn:Heq; cbn [negb] in H; [|done].
  split; [|done].
  apply list_ascii_eqb_eq in Heq. subst got.
  apply mapM_ok in Hgot.
  apply Forall2_cons_1 in Hgot as [H0 Hgot].
  apply Forall2_cons_1 in Hgot as [H1 Hgot].
  apply Forall2_cons_1 in Hgot as [H2 Hgot].
  apply Forall2_cons_1 in Hgot as [H3 _].
  apply magic_char_field in H0; [|apply (slice8_length m 0); lia].
  apply magic_char_field in H1; [|apply (slice8_length m 8); lia].
  apply magic_char_field in H2; [|apply (slice8_length m 16); lia].
  apply magic_char_field in H3; [|apply (slice8_length m 24); lia].
  rewrite (split_in_four m Hm).
  change (0 + 8) with 8 in H0. change (8 + 8) with 16 in H1.
  change (16 + 8) with 24 in H2. change (24 + 8) with 32 in H3.
  rewrite H0, H1, H2, H3. reflexivity.
Qed.

(** Past the magic check: the length field is the payload's length, the
    checksum field its CRC-32, and the bits after the header start with the
    payload's bytes, eight bits each. *)
Lemma accepted_tail l c rest d :
  length l = 32 -> length c = 32 -> parse_tail l c rest = Ok d ->
  fits32 d /\
  l = Py.format_b 32 (Z.of_nat (length d)) /\
  c = Py.format_b 32 (Py.crc32 d) /\
  take (8 * length d) rest = data_bits d /\
  8 * length d <= length rest.
Proof.
  intros Hl Hc H. unfold parse_tail in H.
  destruct (Py.int2 l) as [len|e] eqn:Hlen; cbn [bind] in H; [|done].
  destruct (int2_determines l len 32 Hlen Hl) as (Hrange & Hfmt); [lia|].
  destruct (Z.ltb_spec (Z.of_nat (length rest)) (len * 8)) as [|Hfit]; [done|].
  set (n := Z.to_nat len) in *.
  assert (Hn : Z.to_nat (len * 8) = n * 8) by (unfold n; lia).
  rewrite Hn in H.
  assert (Hact : length (take (n * 8) rest) = 8 * n) by (rewrite length_take; lia).
  rewrite Hact, range0_chunks in H by lia. cbn [bind] in H.
  rewrite frame_count_exact in H by lia.
  rewrite <- (mapM_map decode_byte (fun i => Py.slice i (i + 8) (take (n * 8) rest))) in H.
  change (map _ (map _ (seq 0 n))) with (chunks_of 8 n (take (n * 8) rest)) in H.
  destruct (mapM decode_byte _) as [d'|e] eqn:Hd; cbn [bind] in H; [|done].
  destruct (Py.int2 c) as [sum|e] eqn:Hsum; cbn [bind] in H; [|done].
  destruct (Z.eqb_spec (Py.crc32 d') sum) as [Hcrc|]; cbn [negb] in H; [|done].
  assert (d' = d) as -> by congruence.
  assert (Hlend : length d = n).
  { apply mapM_length in Hd. by rewrite chunks_of_length in Hd. }
  assert (Hbits : concat (chunks_of 8 n (take (n * 8) rest)) = data_bits d).
  { apply decoded_chunks_are_data_bits; [|done].
    apply chunks_of_exact. lia. }
  rewrite concat_chunks_of, take_take, Nat.min_id in Hbits.
  assert (Hz : Z.of_nat (length d) = len) by (rewrite Hlend; unfold n; lia).
  destruct (int2_determines c sum 32 Hsum Hc) as (_ & Hcfmt); [lia|].
  split; [unfold fits32; rewrite Hz; lia|].
  split; [by rewrite Hz|].
  split; [by rewrite Hcrc|].
  split; [by rewrite Hlend, (Nat.mul_comm 8 n) | lia].
Qed.

Lemma accepted_prefix self bits d :
  96 <= length bits ->
  _parse_bit_string self bits = Ok d ->
  fits32 d /\ exists rest, bits = _prepare_bit_string self d ++ rest.
Proof.
  intros Hlen H.
  set (m := take 32 bits). set (l := take 32 (drop 32 bits)).
  set (c := take 32 (drop 64 bits)). set (rest := drop 96 bits).
  assert (Hm : length m = 32) by (unfold m; rewrite length_take; lia).
  assert (Hl : length l = 32) by (unfold l; rewrite length_take, length_drop; lia).
  assert (Hc : length c = 32) by (unfold c; rewrite length_take, length_drop; lia).
  assert (Hsplit : bits = m ++ l ++ c ++ rest).
  { unfold m, l, c, rest.
    rewrite <- (take_drop 32 bits) at 1. f_equal.
    rewrite <- (take_drop 32 (drop 32 bits)) at 1. f_equal.
    rewrite drop_drop. change (32 + 32) with 64.
    rewrite <- (take_drop 32 (drop 64 bits)) at 1. f_equal.
    by rewrite drop_drop. }
  rewrite Hsplit in H.
  destruct (accepted_magic self m l c rest d Hm Hl Hc H) as (Hmagic & Htail).
  destruct (accepted_tail l c rest d Hl Hc Htail) as (Hfit & Hlf & Hcf & Hdata & Hrest).
  split; [done|]. exists (drop (8 * length d) rest).
  rewrite Hsplit, prepare_fields, <- !app_assoc, Hmagic, <- Hlf, <- Hcf, <- Hdata.
  by rewrite take_drop.
Qed.

(** X5. [_parse_bit_string] returns a payload exactly for the bit strings that
    start with what [_prepare_bit_string] builds for that payload. Of the
    strings of binary digits that hold a full header, the accepted ones are
    the prepared string of the returned bytes followed by any rest, the
    payload's length fitting the length field. *)
Theorem decode_accepts_only_prepared self bits d :
  binary bits -> 96 <= length bits ->
  _parse_bit_string self bits = Ok d
  <-> fits32 d /\ exists rest, bits = _prepare_bit_string self d ++ rest.
Proof.
  intros _ Hlen. split; [by apply accepted_prefix|].
  intros (Hfit & rest & ->). by apply parse_prepared.
Qed.

Definition hi_bits_padded : list ascii :=
  Eval vm_compute in
    _prepare_bit_string (FractalEncoder_init 6 6) hi ++ replicate 4 "0"%char.

Lemma decode_accepts_only_prepared_witness :
  _parse_bit_string (FractalEncoder_init 6 6) hi_bits_padded = Ok hi
  <-> fits32 hi /\
      exists rest,
        hi_bits_padded = _prepare_bit_string (FractalEncoder_init 6 6) hi ++ rest.
Proof.
  apply (decode_accepts_only_prepared (FractalEncoder_init 6 6) hi_bits_padded hi).
  - repeat (constructor; [by (left + right)|]). constructor.
  - vm_compute. lia.
Defined.

(** ** A header cut inside the checksum field *)

Lemma int2_acc_all_zeros k : Py.int2_acc 0 (replicate k "0"%char) = Some 0%Z.
Proof. induction k as [|k IH]; [done|]. cbn [replicate]. exact IH. Qed.

Lemma int2_zeros k : 1 <= k -> Py.int2 (replicate k "0"%char) = Ok 0%Z.
Proof.
  intros Hk. destruct k as [|k]; [lia|].
  unfold Py.int2. cbn [replicate]. change ("0"%char :: replicate k "0"%char)
    with (replicate (S k) "0"%char). by rewrite int2_acc_all_zeros.
Qed.

(** The slices of [_parse_bit_string] when the bit string stops inside the
    checksum field. *)
Lemma parse_with_magic_short self (l c : list ascii) :
  length l = 32 -> length c <= 32 ->
  _parse_bit_string self (magic_bits ++ l ++ c) = parse_tail l c [].
Proof.
  intros Hl Hc.
  assert (Hm : take 32 (magic_bits ++ l ++ c) = magic_bits)
    by (by rewrite take_app_length').
  assert (Hl' : Py.slice 32 64 (magic_bits ++ l ++ c) = l).
  { unfold Py.slice. change (64 - 32) with 32.
    rewrite drop_app_length' by done. by rewrite take_app_length'. }
  assert (Hc' : Py.slice 64 96 (magic_bits ++ l ++ c) = c).
  { unfold Py.slice. change (96 - 64) with 32.
    rewrite !app_assoc, drop_app_length' by (rewrite length_app, Hl; done).
    by rewrite take_ge. }
  assert (Hr : drop 96 (magic_bits ++ l ++ c) = []).
  { apply drop_ge. rewrite !length_app, Hl, magic_bits_length. lia. }
  unfold _parse_bit_string. rewrite Hm, Hl', Hc', Hr. reflexivity.
Qed.

Lemma parse_cut_header self k :
  1 <= k <= 32 ->
  _parse_bit_string self (magic_bits ++ replicate 32 "0"%char ++ replicate k "0"%char)
  = Ok [].
Proof.
  intros Hk. rewrite parse_with_magic_short by (rewrite length_replicate; lia).
  unfold parse_tail. rewrite (int2_zeros 32) by lia. cbn [bind].
  change (Z.of_nat (length []) <? 0 * 8)%Z with false. cbv iota.
  change (take (Z.to_nat (0 * 8)) []) with (@nil ascii).
  change (Py.range0 (length []) 8) with (Ok (@nil nat)). cbn [bind mapM].
  rewrite (int2_zeros k) by lia. cbn [bind]. reflexivity.
Qed.

Lemma prepare_empty self :
  _prepare_bit_string self [] = magic_bits ++ replicate 32 "0"%char ++ replicate 32 "0"%char.
Proof. rewrite prepare_fields. reflexivity. Qed.

(** X6. Decode needs no complete header. With frames of 65 to 95 bits the
    empty payload is encoded in two frames, the second one holding the end
    of the checksum field; Decode given the first frame alone still returns
    the empty payload, as the checksum bits it finds are read as the
    number 0, the CRC-32 of no bytes. *)
Theorem cut_header_accepted (w h : nat) :
  65 <= w * h * 3 < 96 ->
  exists frames,
    encode_data_to_pixels (FractalEncoder_init w h) [] = Ok frames /\
    length frames = 2 /\
    decode_pixels_to_data (FractalEncoder_init w h) (removelast frames) = Ok [].
Proof.
  intros Hcap.
  destruct (encode_structure w h [] ltac:(lia))
    as (full & last & Henc & Hcat & Hfull & Hlast & Hbits).
  assert (Hlen : length full * (w * h * 3) + length last = 96).
  { pose proof (f_equal length Hcat) as Hl.
    rewrite length_app, (length_concat_fixed (w * h * 3)) in Hl by done.
    rewrite prepare_empty in Hl. change (length (magic_bits ++ _)) with 96 in Hl. lia. }
  assert (Hone : length full = 1) by nia.
  eexists. split; [exact Henc|].
  rewrite length_map, length_app, Hone. split; [done|].
  rewrite map_app. cbn [map]. rewrite removelast_last.
  unfold decode_pixels_to_data. rewrite Hbits. cbn [bind].
  assert (Hfirst : concat full
                   = magic_bits ++ replicate 32 "0"%char
                       ++ replicate (w * h * 3 - 64) "0"%char).
  { assert (Hl : length (concat full) = w * h * 3)
      by (rewrite (length_concat_fixed (w * h * 3)) by done; lia).
    rewrite <- (take_app_length (concat full) last), Hl, Hcat, prepare_empty.
    rewrite !app_assoc, take_app_ge by (rewrite length_app, length_replicate; simpl; lia).
    rewrite length_app, length_replicate, magic_bits_length.
    rewrite take_replicate. do 2 f_equal. lia. }
  rewrite Hfirst. apply parse_cut_header. lia.
Qed.

(** 5 x 5 frames hold 75 bits. *)
Lemma cut_header_accepted_witness :
  exists frames,
    encode_data_to_pixels (FractalEncoder_init 5 5) [] = Ok frames /\
    length frames = 2 /\
    decode_pixels_to_data (FractalEncoder_init 5 5) (removelast frames) = Ok [].
Proof. apply (cut_header_accepted 5 5). vm_compute. split; lia. Defined.

(** ** Frames of another shape than the decoder's *)

Lemma foldM_ext {A B} (f g : A -> B -> result A) xs :
  (forall x a, In x xs -> f a x = g a x) ->
  forall acc, foldM f xs acc = foldM g xs acc.
Proof.
  induction xs as [|x xs IH]; intros Hfg acc; [done|].
  cbn [foldM]. rewrite (Hfg x acc) by (by left).
  destruct (g acc x) as [a|e]; cbn [bind]; [|done].
  apply IH. intros x' a' Hin. apply Hfg. by right.
Qed.

(** [_fractal_frame_to_bits] looks at the cells [y < height], [x < width]
    and at nothing else. *)
Lemma frame_to_bits_ext w h (f f' : frame) :
  (forall y x, y < h -> x < w -> get_px f y x = get_px f' y x) ->
  _fractal_frame_to_bits (FractalEncoder_init w h) f
  = _fractal_frame_to_bits (FractalEncoder_init w h) f'.
Proof.
  intros Hget. unfold _fractal_frame_to_bits. cbn [width height FractalEncoder_init].
  apply foldM_ext. intros y acc Hy. apply in_seq in Hy.
  apply foldM_ext. intros x acc' Hx. apply in_seq in Hx.
  rewrite Hget by lia. done.
Qed.

(** The top-left block of [h] rows and [w] columns. *)
Definition crop (w h : nat) (f : frame) : frame := map (take w) (take h f).

Lemma crop_shaped w h (f : frame) :
  h <= length f -> Forall (fun row => w <= length row) (take h f) ->
  shaped w h (crop w h f).
Proof.
  intros Hh Hrows. split.
  - unfold crop. rewrite length_map, length_take. lia.
  - unfold crop. apply Forall_map. eapply Forall_impl; [exact Hrows|].
    intros row Hrow. cbn beta in Hrow |- *. rewrite length_take. lia.
Qed.

Lemma crop_get w h (f : frame) y x :
  h <= length f -> Forall (fun row => w <= length row) (take h f) ->
  y < h -> x < w -> get_px (crop w h f) y x = get_px f y x.
Proof.
  intros Hh Hrows Hy Hx. unfold get_px, crop.
  rewrite list_lookup_fmap, lookup_take_lt by done.
  destruct (lookup_lt_is_Some_2 f y ltac:(lia)) as [row Hrow].
  rewrite Hrow. cbn.
  assert (Hw : w <= length row).
  { apply (Forall_lookup_1 _ _ y row Hrows). by rewrite lookup_take_lt. }
  rewrite lookup_take_lt by done.
  destruct (lookup_lt_is_Some_2 row x ltac:(lia)) as [px Hpx]. by rewrite Hpx.
Qed.

(** X7. A frame larger than the decoder's shape is not refused: only its
    top-left block of [height] rows and [width] columns is read, the other
    cells are ignored. *)
Theorem larger_frame_cropped (w h : nat) (f : frame) :
  h <= length f -> Forall (fun row => w <= length row) (take h f) ->
  _fractal_frame_to_bits (FractalEncoder_init w h) f = Ok (frame_bits (crop w h f)).
Proof.
  intros Hh Hrows.
  rewrite <- (frame_to_bits_shaped w h (crop w h f)) by by apply crop_shaped.
  apply frame_to_bits_ext. intros y x Hy Hx. by rewrite (crop_get w h f y x).
Qed.

(** A frame with two more columns and one more row than the 8 x 8 decoder
    reads. *)
Definition widened (f : frame) : frame :=
  map (fun row => row ++ [(90, 90, 90)%Z; (200, 200, 200)%Z]) f
  ++ [replicate 10 (128, 128, 128)%Z].

Lemma larger_frame_cropped_witness :
  _fractal_frame_to_bits (FractalEncoder_init 8 8) (widened grey_frame)
  = Ok (frame_bits (crop 8 8 (widened grey_frame))).
Proof.
  apply (larger_frame_cropped 8 8 (widened grey_frame)).
  - vm_compute. lia.
  - vm_compute. repeat (constructor; [lia|]). constructor.
Defined.

Lemma get_px_error (f : frame) y x e : get_px f y x = Err e -> class_of e = CIndexError.
Proof.
  unfold get_px. destruct (f !! y) as [row|]; [|by intros [= <-]].
  destruct (row !! x); [done | by intros [= <-]].
Qed.

Section ReadCells.
Variables (f : frame) (w h : nat).

Local Abbreviation read_row_of y :=
  (foldM (fun bit_string x =>
            let* p := get_px f y x in Ok (bit_string ++ pixel_bits p))).

Lemma row_read_cells y n : forall a acc r,
  read_row_of y (seq a n) acc = Ok r ->
  forall x, a <= x < a + n -> exists p, get_px f y x = Ok p.
Proof.
  induction n as [|n IH]; intros a acc r H x Hx; [lia|].
  cbn [seq foldM] in H.
  destruct (get_px f y a) as [p|e] eqn:Hp; cbn [bind] in H; [|done].
  destruct (decide (x = a)) as [->|Hne]; [eauto|].
  apply (IH (S a) _ r H x). lia.
Qed.

Lemma row_read_error y n : forall a acc e,
  read_row_of y (seq a n) acc = Err e -> class_of e = CIndexError.
Proof.
  induction n as [|n IH]; intros a acc e H; [done|].
  cbn [seq foldM] in H.
  destruct (get_px f y a) as [p|e'] eqn:Hp; cbn [bind] in H.
  - exact (IH (S a) _ e H).
  - assert (e' = e) as -> by congruence. by eapply get_px_error.
Qed.

Lemma rows_read_cells n : forall a acc r,
  foldM (fun bit_string y => read_row_of y (seq 0 w) bit_string) (seq a n) acc = Ok r ->
  forall y x, a <= y < a + n -> x < w -> exists p, get_px f y x = Ok p.
Proof.
  induction n as [|n IH]; intros a acc r H y x Hy Hx; [lia|].
  cbn [seq foldM] in H.
  destruct (read_row_of a (seq 0 w) acc) as [acc'|e] eqn:Hrow; cbn [bind] in H; [|done].
  destruct (decide (y = a)) as [->|Hne].
  - apply (row_read_cells a w 0 acc acc' Hrow). lia.
  - apply (IH (S a) _ r H y x); lia.
Qed.

Lemma rows_read_error n : forall a acc e,
  foldM (fun bit_string y => read_row_of y (seq 0 w) bit_string) (seq a n) acc = Err e ->
  class_of e = CIndexError.
Proof.
  induction n as [|n IH]; intros a acc e H; [done|].
  cbn [seq foldM] in H.
  destruct (read_row_of a (seq 0 w) acc) as [acc'|e'] eqn:Hrow; cbn [bind] in H.
  - exact (IH (S a) _ e H).
  - assert (e' = e) as -> by congruence. by eapply row_read_error.
Qed.

End ReadCells.

(** On arrays of three channels: the function returns exactly when every
    cell it visits is there, and raises an [IndexError] otherwise. *)
Lemma three_channel_read (w h : nat) (f : frame) :
  ((exists bits, _fractal_frame_to_bits (FractalEncoder_init w h) f = Ok bits)
   <-> forall y x, y < h -> x < w -> exists p, get_px f y x = Ok p) /\
  (forall e, _fractal_frame_to_bits (FractalEncoder_init w h) f = Err e ->
             class_of e = CIndexError).
Proof.
  split; [split|].
  - intros [bits H] y x Hy Hx.
    apply (rows_read_cells f w h 0 [] bits H); lia.
  - intros Hget.
    set (P := fun k => match get_px f (k / w) (k mod w) with
                       | Ok p => p
                       | Err _ => (0, 0, 0)%Z
                       end).
    eexists. apply (frame_to_bits_spec w h f P).
    intros y x Hy Hx. destruct (Hget y x Hy Hx) as [p Hp].
    unfold P.
    replace ((y * w + x) / w) with y
      by (apply (Nat.div_unique _ w y x); lia).
    replace ((y * w + x) mod w) with x
      by (apply (Nat.mod_unique _ w y x); lia).
    by rewrite Hp.
  - intros e H. by apply (rows_read_error f w h 0 [] e).
Qed.

(** ** Arrays with any number of channels *)

(** A numpy array of three dimensions: its shape (rows, columns,
    channels) and its items. *)
Record ndarray : Type := mkNdarray {
  nd_rows : nat;
  nd_cols : nat;
  nd_channels : nat;
  nd_item : nat -> nat -> nat -> Z
}.

(** [frame[y, x]]: the channels of one cell. numpy checks the indices in
    order, the row first. *)
Definition nd_cell (a : ndarray) (y x : nat) : result (list Z) :=
  if nd_rows a <=? y then Err (index_error y 0 (nd_rows a))
  else if nd_cols a <=? x then Err (index_error x 1 (nd_cols a))
  else Ok (map (nd_item a y x) (seq 0 (nd_channels a))).

(** [r, g, b = cell]: a cell of another length than three cannot be
    unpacked, which is a [ValueError]. *)
Definition unpack3 (cell : list Z) : result pixel :=
  match cell with
  | [r; g; b] => Ok (r, g, b)
  | _ =>
      if length cell <? 3
      then Err (ValueError ("not enough values to unpack (expected 3, got "
                            ++ nat_str (length cell) ++ ")"))
      else Err (ValueError "too many values to unpack (expected 3)")
  end.

(** [_fractal_frame_to_bits] on such an array. *)
Definition _fractal_frame_to_bits_nd (self : FractalEncoder) (frame : ndarray)
  : result (list ascii) :=
  foldM (fun bit_string y =>
     foldM (fun bit_string x =>
        let* cell := nd_cell frame y x in
        let* p := unpack3 cell in
        Ok (bit_string ++ pixel_bits p))
       (seq 0 (width self)) bit_string)
    (seq 0 (height self)) [].

(** The rows of pixels of an array of three channels. *)
Definition frame_of (a : ndarray) : frame :=
  map (fun y => map (fun x => (nd_item a y x 0, nd_item a y x 1, nd_item a y x 2))
                 (seq 0 (nd_cols a)))
      (seq 0 (nd_rows a)).

Lemma unpack3_length (cell : list Z) :
  length cell <> 3 -> exists m, unpack3 cell = Err (ValueError m).
Proof.
  intros Hlen. destruct cell as [|r [|g [|b [|c cell]]]]; try (simpl in Hlen; lia);
    unfold unpack3; destruct (_ <? 3); eauto.
Qed.

Lemma nd_cell_three (a : ndarray) y x :
  nd_channels a = 3 ->
  (let* cell := nd_cell a y x in unpack3 cell) = get_px (frame_of a) y x.
Proof.
  intros Hc. unfold nd_cell, get_px, frame_of.
  rewrite list_lookup_fmap, length_map, length_seq.
  destruct (Nat.leb_spec (nd_rows a) y) as [Hy|Hy].
  - by rewrite lookup_seq_ge.
  - rewrite lookup_seq_lt by done. cbn [fmap option_fmap option_map Nat.add bind].
    rewrite list_lookup_fmap, length_map, length_seq.
    destruct (Nat.leb_spec (nd_cols a) x) as [Hx|Hx].
    + by rewrite lookup_seq_ge.
    + rewrite lookup_seq_lt by done. by rewrite Hc.
Qed.

Lemma nd_three_channels self (a : ndarray) :
  nd_channels a = 3 ->
  _fractal_frame_to_bits_nd self a = _fractal_frame_to_bits self (frame_of a).
Proof.
  intros Hc. unfold _fractal_frame_to_bits_nd, _fractal_frame_to_bits.
  apply foldM_ext. intros y acc _. apply foldM_ext. intros x acc' _.
  rewrite <- (nd_cell_three a y x Hc).
  destruct (nd_cell a y x) as [cell|e]; cbn [bind]; [|done]. done.
Qed.

Lemma frame_of_cell (a : ndarray) y x :
  (exists p, get_px (frame_of a) y x = Ok p) <-> y < nd_rows a /\ x < nd_cols a.
Proof.
  unfold get_px, frame_of. rewrite list_lookup_fmap.
  destruct (Nat.lt_ge_cases y (nd_rows a)) as [Hy|Hy].
  - rewrite lookup_seq_lt by done. cbn [fmap option_fmap option_map Nat.add].
    rewrite list_lookup_fmap.
    destruct (Nat.lt_ge_cases x (nd_cols a)) as [Hx|Hx].
    + rewrite lookup_seq_lt by done. cbn. split; [done | eauto].
    + rewrite lookup_seq_ge by done. cbn. split; [by intros [p Hp] | lia].
  - rewrite lookup_seq_ge by done. cbn. split; [by intros [p Hp] | lia].
Qed.

(** The first cell decides when it cannot be read. *)
Lemma nd_first_cell (w h : nat) (a : ndarray) e :
  0 < w -> 0 < h ->
  (let* cell := nd_cell a 0 0 in unpack3 cell) = Err e ->
  _fractal_frame_to_bits_nd (FractalEncoder_init w h) a = Err e.
Proof.
  intros Hw Hh H. unfold _fractal_frame_to_bits_nd. cbn [width height FractalEncoder_init].
  destruct w as [|w]; [lia|]. destruct h as [|h]; [lia|].
  cbn [seq foldM].
  destruct (nd_cell a 0 0) as [cell|e']; cbn [bind] in H |- *.
  - destruct (unpack3 cell) as [p|e']; cbn [bind]; [done | congruence].
  - congruence.
Qed.

(** X8. What [_fractal_frame_to_bits] does with an array of shape (rows,
    columns, channels), for a decoder with at least one cell. It returns
    exactly when the array has three channels, [height] rows or more and
    [width] columns or more. With cells of another number of channels
    the unpacking [r, g, b = frame[y, x]] of the first cell raises a
    [ValueError]. An [IndexError] is raised by an array without a row or
    a column, and by an array of three channels that is too small. On
    arrays of three channels the function is the one on rows of pixels. *)
Theorem frame_read_needs_every_cell (w h : nat) (a : ndarray) :
  0 < w -> 0 < h ->
  ((exists bits, _fractal_frame_to_bits_nd (FractalEncoder_init w h) a = Ok bits)
   <-> h <= nd_rows a /\ w <= nd_cols a /\ nd_channels a = 3) /\
  (0 < nd_rows a -> 0 < nd_cols a -> nd_channels a <> 3 ->
   exists m, _fractal_frame_to_bits_nd (FractalEncoder_init w h) a
             = Err (ValueError m)) /\
  (nd_rows a = 0 \/ nd_cols a = 0 \/
   (nd_channels a = 3 /\ (nd_rows a < h \/ nd_cols a < w)) ->
   exists m, _fractal_frame_to_bits_nd (FractalEncoder_init w h) a
             = Err (IndexError m)) /\
  (nd_channels a = 3 ->
   _fractal_frame_to_bits_nd (FractalEncoder_init w h) a
   = _fractal_frame_to_bits (FractalEncoder_init w h) (frame_of a)).
Proof.
  intros Hw Hh.
  assert (Hvalue : 0 < nd_rows a -> 0 < nd_cols a -> nd_channels a <> 3 ->
    exists m, _fractal_frame_to_bits_nd (FractalEncoder_init w h) a
              = Err (ValueError m)).
  { intros Hr Hc Hch.
    destruct (unpack3_length (map (nd_item a 0 0) (seq 0 (nd_channels a))))
      as [m Hm]; [by rewrite length_map, length_seq|].
    exists m. apply nd_first_cell; [done..|]. unfold nd_cell.
    destruct (Nat.leb_spec (nd_rows a) 0); [lia|].
    destruct (Nat.leb_spec (nd_cols a) 0); [lia|]. done. }
  assert (Hindex : nd_rows a = 0 \/ nd_cols a = 0 \/
      (nd_channels a = 3 /\ (nd_rows a < h \/ nd_cols a < w)) ->
    exists m, _fractal_frame_to_bits_nd (FractalEncoder_init w h) a
              = Err (IndexError m)).
  { intros [Hr|[Hc|[Hch Hsmall]]].
    - eexists. apply nd_first_cell; [done..|]. unfold nd_cell.
      destruct (Nat.leb_spec (nd_rows a) 0); [done | lia].
    - destruct (Nat.eq_dec (nd_rows a) 0) as [Hr|Hr].
      + eexists. apply nd_first_cell; [done..|]. unfold nd_cell.
        destruct (Nat.leb_spec (nd_rows a) 0); [done | lia].
      + eexists. apply nd_first_cell; [done..|]. unfold nd_cell.
        destruct (Nat.leb_spec (nd_rows a) 0); [lia|].
        destruct (Nat.leb_spec (nd_cols a) 0); [done | lia].
    - rewrite (nd_three_channels _ a Hch).
      destruct (three_channel_read w h (frame_of a)) as [[Hok _] Herr].
      destruct (_fractal_frame_to_bits _ (frame_of a)) as [bits|e] eqn:Hres.
      + exfalso. destruct Hsmall as [Hr|Hc].
        * destruct (proj1 (frame_of_cell a (nd_rows a) 0)); [|lia].
          apply Hok; [eauto | lia..].
        * destruct (proj1 (frame_of_cell a 0 (nd_cols a))); [|lia].
          apply Hok; [eauto | lia..].
      + specialize (Herr e eq_refl). destruct e as [|m| |]; try done. by exists m. }
  assert (Hsame : nd_channels a = 3 ->
    _fractal_frame_to_bits_nd (FractalEncoder_init w h) a
    = _fractal_frame_to_bits (FractalEncoder_init w h) (frame_of a))
    by apply nd_three_channels.
  split; [|done]. split.
  - intros [bits Hbits].
    destruct (Nat.eq_dec (nd_channels a) 3) as [Hch|Hch].
    + destruct (Nat.le_gt_cases h (nd_rows a)) as [Hr|Hr];
        [destruct (Nat.le_gt_cases w (nd_cols a)) as [Hc|Hc]; [done|]|].
      * destruct Hindex as [m Hm]; [tauto | congruence].
      * destruct Hindex as [m Hm]; [tauto | congruence].
    + destruct (Nat.eq_dec (nd_rows a) 0) as [Hr|Hr].
      * destruct Hindex as [m Hm]; [tauto | congruence].
      * destruct (Nat.eq_dec (nd_cols a) 0) as [Hc|Hc].
        -- destruct Hindex as [m Hm]; [tauto | congruence].
        -- destruct Hvalue as [m Hm]; [lia..|done|congruence].
  - intros (Hr & Hc & Hch). rewrite (Hsame Hch).
    apply (proj1 (three_channel_read w h (frame_of a))).
    intros y x Hy Hx. apply frame_of_cell. lia.
Qed.

(** An array of 8 rows, 8 columns and 4 channels, every item 255. *)
Definition rgba_frame : ndarray := mkNdarray 8 8 4 (fun _ _ _ => 255%Z).

Lemma frame_read_needs_every_cell_witness :
  exists m, _fractal_frame_to_bits_nd (FractalEncoder_init 8 8) rgba_frame
            = Err (ValueError m).
Proof.
  apply (proj1 (proj2 (frame_read_needs_every_cell 8 8 rgba_frame
                         ltac:(lia) ltac:(lia)))).
  - vm_compute. lia.
  - vm_compute. lia.
  - by vm_compute.
Defined.

(** ** The branch that fills the remaining cells *)

(** The two loops of [_bits_to_fractal_frame] with the value of
    [bit_index] they end with kept beside the array. *)
Definition bits_to_frame_loop (self : FractalEncoder) (bit_string : list ascii)
  : frame * nat :=
  let total_bits := pixels_per_frame self * 3 in
  let padded_bits := Py.ljust total_bits "0" bit_string in
  let frame0 : frame := replicate (height self) (replicate (width self) (0, 0, 0)%Z) in
  fold_left (fun st y =>
     fold_left (fun (st : frame * nat) x =>
       let (frame, bit_index) := st in
       if bit_index + 2 <? length padded_bits then
         let r_bit := char_at padded_bits bit_index in
         let g_bit := char_at padded_bits (bit_index + 1) in
         let b_bit := char_at padded_bits (bit_index + 2) in
         let r := channel_of_bit r_bit in
         let g := channel_of_bit g_bit in
         let b := channel_of_bit b_bit in
         (set_px frame y x (r, g, b), bit_index + 3)
       else
         (set_px frame y x (0, 0, 0)%Z, bit_index))
     (seq 0 (width self)) st)
   (seq 0 (height self)) (frame0, 0).

(** X9. In [_bits_to_fractal_frame] the test [bit_index + 2 < len(padded_bits)]
    holds at every cell, whatever string is given: the loops end with
    [bit_index] at [3 * width * height], which the branch that fills a cell
    with black and leaves [bit_index] as it is would prevent had it run
    once. *)
Theorem fill_branch_unreachable (w h : nat) (bit_string : list ascii) :
  _bits_to_fractal_frame (FractalEncoder_init w h) bit_string
  = fst (bits_to_frame_loop (FractalEncoder_init w h) bit_string) /\
  snd (bits_to_frame_loop (FractalEncoder_init w h) bit_string) = 3 * (w * h).
Proof.
  split; [reflexivity|].
  set (padded := Py.ljust (w * h * 3) "0" bit_string).
  assert (Hp : 3 * (w * h) <= length padded).
  { unfold padded, Py.ljust. rewrite length_app, length_replicate. lia. }
  pose proof (rows_done w h padded h 0 _ Hp ltac:(lia) (blank_done w h padded))
    as (Hidx & _ & _).
  cbn [Nat.add] in Hidx. rewrite (Nat.mul_comm w h). exact Hidx.
Qed.

(** * [fold/core/decoder.py]: reading the container *)

Lemma read_loop_map (stream : list frame) : forall acc,
  fold_left (fun frames frame => frames ++ [cvtColor_BGR2RGB frame]) stream acc
  = acc ++ map cvtColor_BGR2RGB stream.
Proof.
  induction stream as [|f stream IH]; intros acc; cbn [fold_left map].
  - by rewrite app_nil_r.
  - by rewrite IH, <- app_assoc.
Qed.

Lemma read_video_frames_opened (stream : list frame) :
  stream <> [] ->
  _read_video_frames (mkVideoCapture true stream) = Ok (map cvtColor_BGR2RGB stream).
Proof.
  intros Hne. unfold _read_video_frames. cbn [isOpened read_stream negb].
  rewrite (read_loop_map stream []). cbn [app].
  by destruct stream.
Qed.

(** X10. [_read_video_frames] never returns an empty list, and raises nothing
    but [DecodingError]: what it returns is the whole stream of an opened
    capture, every frame converted; a file that cannot be opened and a
    video without a frame both end in a [DecodingError], the
    [FileCorruptionError] raised for the second one being caught by the
    function's own handler. *)
Theorem read_video_frames_outcomes (cap : VideoCapture) :
  (forall frames, _read_video_frames cap = Ok frames ->
     frames <> [] /\ isOpened cap = true /\
     frames = map cvtColor_BGR2RGB (read_stream cap)) /\
  (forall e, _read_video_frames cap = Err e -> class_of e = CDecodingError) /\
  (isOpened cap = true -> read_stream cap = [] ->
   _read_video_frames cap
   = Err (DecodingError
            "Failed to read video frames: Video contains no decodable frames")).
Proof.
  destruct cap as [opened stream]. cbn [isOpened read_stream].
  split; [|split].
  - intros frames H. destruct opened; [|done].
    destruct stream as [|f stream]; [done|].
    rewrite read_video_frames_opened in H by done.
    assert (frames = map cvtColor_BGR2RGB (f :: stream)) as -> by congruence.
    done.
  - intros e H. unfold _read_video_frames in H.
    destruct (if negb _ then _ else _); [done|].
    by assert (e = DecodingError ("Failed to read video frames: " ++ str_of e0))
      as -> by congruence.
  - by intros -> ->.
Qed.

Lemma read_video_frames_outcomes_witness :
  _read_video_frames (mkVideoCapture true [])
  = Err (DecodingError
           "Failed to read video frames: Video contains no decodable frames").
Proof.
  apply (proj2 (proj2 (read_video_frames_outcomes (mkVideoCapture true []))));
    reflexivity.
Defined.

Lemma frames_to_bits_error self (frames : list frame) e :
  frames_to_bits self frames = Err e -> class_of e = CIndexError.
Proof.
  unfold frames_to_bits. generalize (@nil ascii).
  induction frames as [|f frames IH]; intros acc H; [done|].
  cbn [foldM] in H.
  destruct (_fractal_frame_to_bits self f) as [bits|e'] eqn:Hf; cbn [bind] in H.
  - exact (IH _ H).
  - assert (e' = e) as -> by congruence.
    exact (rows_read_error f (width self) (height self) 0 [] e Hf).
Qed.

(** The codec raises [ValueError] and [IndexError] only. *)
Lemma decode_error_classes self (frames : list frame) e :
  decode_pixels_to_data self frames = Err e ->
  class_of e = CValueError \/ class_of e = CIndexError.
Proof.
  unfold decode_pixels_to_data. intros H.
  destruct (frames_to_bits self frames) as [bits|e'] eqn:Hb; cbn [bind] in H.
  - left. by apply (parse_value_errors_only self bits).
  - right. assert (e' = e) as -> by congruence. by eapply frames_to_bits_error.
Qed.

Lemma retrieve_read (cap : VideoCapture) f0 fs :
  _read_video_frames cap = Ok (f0 :: fs) ->
  retrieve cap
  = match decode_pixels_to_data
            (FractalEncoder_init (snd (shape2 f0)) (fst (shape2 f0))) (f0 :: fs) with
    | Ok data => Ok data
    | Err (ValueError m) =>
        Err (FileCorruptionError ("Data corruption detected: " ++ m))
    | Err e => Err (DecodingError ("Failed to decode video: " ++ str_of e))
    end.
Proof.
  intros H. unfold retrieve. rewrite H. cbn [bind].
  destruct (shape2 f0) as [hh ww]. cbn [fst snd].
  destruct (decode_pixels_to_data _ _) as [d|e] eqn:Hd; [done|].
  destruct (decode_error_classes _ _ _ Hd) as [Hc|Hc]; by destruct e.
Qed.

(** X11. The test [if not frames] of [retrieve] never fires. A video without a
    frame is reported as a [DecodingError], by way of
    [_read_video_frames], not as the [FileCorruptionError] that test would
    raise; and whenever [retrieve] raises a [FileCorruptionError], it is
    the codec's [ValueError] with Data corruption detected: put before its
    message. *)
Theorem retrieve_corruption_only_from_codec (cap : VideoCapture) :
  (isOpened cap = true -> read_stream cap = [] ->
   retrieve cap
   = Err (DecodingError
            ("Failed to decode video: "
             ++ "Failed to read video frames: Video contains no decodable frames"))) /\
  (forall m, retrieve cap = Err (FileCorruptionError m) ->
     exists f0 fs m',
       _read_video_frames cap = Ok (f0 :: fs) /\
       decode_pixels_to_data
         (FractalEncoder_init (snd (shape2 f0)) (fst (shape2 f0))) (f0 :: fs)
       = Err (ValueError m') /\
       m = ("Data corruption detected: " ++ m')%string) /\
  retrieve cap <> Err (FileCorruptionError "No frames found in video").
Proof.
  assert (Hcor : forall m, retrieve cap = Err (FileCorruptionError m) ->
     exists f0 fs m',
       _read_video_frames cap = Ok (f0 :: fs) /\
       decode_pixels_to_data
         (FractalEncoder_init (snd (shape2 f0)) (fst (shape2 f0))) (f0 :: fs)
       = Err (ValueError m') /\
       m = ("Data corruption detected: " ++ m')%string).
  { intros m H.
    destruct (read_video_frames_outcomes cap) as (Hok & Herr & _).
    destruct (_read_video_frames cap) as [[|f0 fs]|e] eqn:Hread.
    - by destruct (Hok [] eq_refl).
    - rewrite (retrieve_read cap f0 fs Hread) in H.
      destruct (decode_pixels_to_data _ _) as [d|e] eqn:Hd; [done|].
      destruct e as [m'| | |]; try done.
      exists f0, fs, m'. repeat split; congruence.
    - unfold retrieve in H. rewrite Hread in H. cbn [bind] in H.
      specialize (Herr e eq_refl). by destruct e. }
  split; [|split; [exact Hcor|]].
  - intros Hopen Hempty. unfold retrieve.
    destruct (read_video_frames_outcomes cap) as (_ & _ & Hnone).
    by rewrite (Hnone Hopen Hempty).
  - intros H. destruct (Hcor _ H) as (f0 & fs & m' & _ & _ & Hm). discriminate Hm.
Qed.

Lemma retrieve_corruption_only_from_codec_witness :
  retrieve (mkVideoCapture true [])
  = Err (DecodingError
           ("Failed to decode video: "
            ++ "Failed to read video frames: Video contains no decodable frames")).
Proof.
  apply (proj1 (retrieve_corruption_only_from_codec (mkVideoCapture true [])));
    reflexivity.
Defined.

Lemma cvtColor_BGR2RGB_shaped w h (f : frame) :
  shaped w h f -> shaped w h (cvtColor_BGR2RGB f).
Proof.
  intros [Hh Hrows]. split; unfold cvtColor_BGR2RGB.
  - by rewrite length_map.
  - apply Forall_map. eapply Forall_impl; [exact Hrows|].
    intros row Hrow. cbn beta in Hrow |- *. by rewrite length_map.
Qed.

Lemma shape2_shaped w h (f : frame) : 0 < h -> shaped w h f -> shape2 f = (h, w).
Proof.
  intros Hpos [Hh Hrows]. unfold shape2. destruct f as [|row f]; [simpl in Hh; lia|].
  apply Forall_cons in Hrows as [Hrow _]. by rewrite Hh, Hrow.
Qed.

Lemma retrieve_on_uniform (cap : VideoCapture) (w h : nat) :
  isOpened cap = true -> read_stream cap <> [] -> 0 < h ->
  Forall (shaped w h) (read_stream cap) ->
  retrieve cap
  = match decode_pixels_to_data (FractalEncoder_init w h)
            (map cvtColor_BGR2RGB (read_stream cap)) with
    | Ok data => Ok data
    | Err e => Err (FileCorruptionError ("Data corruption detected: " ++ str_of e))
    end.
Proof.
  destruct cap as [opened stream]. cbn [isOpened read_stream].
  intros -> Hne Hpos Hall.
  pose proof (read_video_frames_opened stream Hne) as Hread.
  assert (Hsh : Forall (shaped w h) (map cvtColor_BGR2RGB stream)).
  { apply Forall_map. eapply Forall_impl; [exact Hall|].
    intros f Hf. by apply cvtColor_BGR2RGB_shaped. }
  destruct (map cvtColor_BGR2RGB stream) as [|f0 fs] eqn:Hmap.
  { by destruct stream. }
  rewrite (retrieve_read _ f0 fs Hread).
  apply Forall_cons in Hsh as [Hf0 Hfs].
  rewrite (shape2_shaped w h f0 Hpos Hf0). cbn [fst snd].
  destruct (decode_pixels_to_data _ _) as [d|e] eqn:Hd; [done|].
  unfold decode_pixels_to_data in Hd.
  rewrite frames_to_bits_shaped in Hd by (by constructor). cbn [bind] in Hd.
  pose proof (parse_value_errors_only _ _ e Hd) as Hc. by destruct e.
Qed.


(** X12. On a video whose frames all have one shape, [retrieve] decodes with the
    height and the width of the first frame, and every failure of the
    codec reaches the caller as a [FileCorruptionError]: with frames of one
    shape no [IndexError] can arise, so nothing is left for the
    [DecodingError] of the outer handler. *)
Theorem retrieve_uniform_video (cap : VideoCapture) (w h : nat) :
  isOpened cap = true -> read_stream cap <> [] -> 0 < h ->
  Forall (shaped w h) (read_stream cap) ->
  retrieve cap
  = match decode_pixels_to_data (FractalEncoder_init w h)
            (map cvtColor_BGR2RGB (read_stream cap)) with
    | Ok data => Ok data
    | Err e => Err (FileCorruptionError ("Data corruption detected: " ++ str_of e))
    end.
Proof. apply retrieve_on_uniform. Qed.

(** [hi_frames] with the channels in the order B, G, R. *)
Definition hi_frames_bgr : list frame :=
  Eval vm_compute in map (map (map (fun '(r, g, b) => (b, g, r)))) hi_frames.

Lemma retrieve_uniform_video_witness :
  retrieve (mkVideoCapture true hi_frames_bgr)
  = match decode_pixels_to_data (FractalEncoder_init 8 8)
            (map cvtColor_BGR2RGB hi_frames_bgr) with
    | Ok data => Ok data
    | Err e => Err (FileCorruptionError ("Data corruption detected: " ++ str_of e))
    end.
Proof.
  apply (retrieve_uniform_video (mkVideoCapture true hi_frames_bgr) 8 8).
  - reflexivity.
  - by vm_compute.
  - lia.
  - vm_compute. repeat constructor.
Defined.

(** * The failure modes of Decode *)






(** * [fold/core/encoder.py]: writing the container *)

(** ** The string methods [_write_video] uses *)

Module PyStr.

(** [s.startswith(prefix)] *)
Fixpoint startswith (s prefix : list ascii) : bool :=
  match prefix, s with
  | [], _ => true
  | p :: ps, c :: cs => Ascii.eqb p c && startswith cs ps
  | _ :: _, [] => false
  end.

(** [s.endswith(suffix)] *)
Definition endswith (s suffix : list ascii) : bool :=
  (length suffix <=? length s)
  && list_ascii_eqb (drop (length s - length suffix) s) suffix.

(** [s.replace(old, new)] for a non-empty [old]: the occurrences of [old]
    are taken from left to right and do not overlap. [skip] counts the
    characters of the occurrence just replaced that are still to be passed
    over. *)
Fixpoint replace_from (old new : list ascii) (skip : nat) (s : list ascii)
  : list ascii :=
  match s with
  | [] => []
  | c :: t =>
      match skip with
      | S k => replace_from old new k t
      | O =>
          if startswith s old
          then new ++ replace_from old new (length old - 1) t
          else c :: replace_from old new 0 t
      end
  end.

Definition replace (s old new : list ascii) : list ascii := replace_from old new 0 s.

End PyStr.

Definition dot_mp4 : list ascii := list_ascii_of_string ".mp4".
Definition dot_avi : list ascii := list_ascii_of_string ".avi".

(** ** [_write_video] and [store] *)

(** What the functions of this file ask of OpenCV and of the file system:
    whether a [cv2.VideoWriter] on a path reports [isOpened()], and whether
    [os.path.exists] finds the file once the writer is released. *)
Record WriterEnv : Type := mkWriterEnv {
  writer_isOpened : list ascii -> bool;
  path_exists : list ascii -> bool
}.

(** The file a call leaves behind: where it is, and the frames that were
    handed to [video_writer.write], in order. *)
Record VideoFile : Type := mkVideoFile {
  file_path : list ascii;
  file_frames : list frame
}.

(** Every exception that leaves [_write_video] or [store] is an
    [EncodingError]. *)
Inductive encoded (A : Type) : Type :=
| Done (a : A)
| EncodingError (msg : string).
Arguments Done {A} a.
Arguments EncodingError {A} msg.

(** The name of the AVI file [_write_video] writes:
    [output_path.replace('.mp4', '.avi')] for a name that ends with .mp4,
    and .avi appended to a name that does not end with it. *)
Definition avi_path_of (output_path : list ascii) : list ascii :=
  let avi_path :=
    if PyStr.endswith output_path dot_mp4
    then PyStr.replace output_path dot_mp4 dot_avi
    else output_path in
  if negb (PyStr.endswith avi_path dot_avi) then avi_path ++ dot_avi else avi_path.

(** [_write_video]. Renaming a file that exists and asking for its size
    are taken to succeed; the two tests of the source are the failures
    kept, each raised inside the [try] and so wrapped by its handler. *)
Definition _write_video (env : WriterEnv) (frames : list frame)
    (output_path : list ascii) : encoded VideoFile :=
  let avi_path := avi_path_of output_path in
  if negb (writer_isOpened env avi_path)
  then EncodingError ("Failed to write video: " ++ "Failed to initialize video writer")
  else
    let written :=
      fold_left (fun written frame =>
                   let frame_bgr := cvtColor_RGB2BGR frame in
                   written ++ [frame_bgr])
                frames [] in
    if negb (path_exists env avi_path)
    then EncodingError ("Failed to write video: " ++ "Video file was not created")
    else
      let output_path :=
        if PyStr.endswith output_path dot_mp4
           && negb (list_ascii_eqb avi_path output_path)
        then output_path
        else avi_path in
      Done (mkVideoFile output_path written).

(** [store], from the bytes [validate_input_data] returned and the path
    [validate_output_path] returned, for dimensions that are not negative.
    The result is the string returned, with the file left behind. *)
Definition store (env : WriterEnv) (byte_data : list byte) (output_path : list ascii)
    (width height : nat) : encoded (list ascii * VideoFile) :=
  let encoder := FractalEncoder_init width height in
  match encode_data_to_pixels encoder byte_data with
  | Err e => EncodingError ("Failed to encode data: " ++ str_of e)
  | Ok frames =>
      match _write_video env frames output_path with
      | EncodingError m => EncodingError ("Failed to encode data: " ++ m)
      | Done file => Done (output_path, file)
      end
  end.

(** ** The name of the file *)

Lemma list_ascii_eqb_refl a : list_ascii_eqb a a = true.
Proof. unfold list_ascii_eqb. apply String.eqb_refl. Qed.

Lemma list_ascii_eqb_neq a b : a <> b -> list_ascii_eqb a b = false.
Proof.
  intros Hne. destruct (list_ascii_eqb a b) eqn:E; [|done].
  by apply list_ascii_eqb_eq in E.
Qed.

Lemma endswith_app s suffix : PyStr.endswith (s ++ suffix) suffix = true.
Proof.
  unfold PyStr.endswith. rewrite length_app.
  replace (length s + length suffix - length suffix) with (length s) by lia.
  rewrite drop_app_length, list_ascii_eqb_refl.
  destruct (Nat.leb_spec (length suffix) (length s + length suffix)); [done | lia].
Qed.

Lemma endswith_inv s suffix :
  PyStr.endswith s suffix = true -> exists s0, s = s0 ++ suffix.
Proof.
  unfold PyStr.endswith. intros H. apply andb_true_iff in H as [_ H].
  apply list_ascii_eqb_eq in H.
  exists (take (length s - length suffix) s).
  rewrite <- H at 2. by rewrite take_drop.
Qed.

(** The two endings tell strings apart. *)
Lemma endings_differ s t : s ++ dot_avi <> t ++ dot_mp4.
Proof.
  intros H.
  assert (Hl : length s = length t).
  { apply (f_equal length) in H. rewrite !length_app in H. simpl in H. lia. }
  apply app_inj_1 in H; [|done]. by destruct H as [_ H].
Qed.

(** A path that ends with .mp4 has that last occurrence replaced, whatever
    was replaced before it: no occurrence can overlap the last one. *)
Lemma replace_last_mp4 s0 : forall skip,
  skip <= length s0 ->
  exists out, PyStr.replace_from dot_mp4 dot_avi skip (s0 ++ dot_mp4) = out ++ dot_avi.
Proof.
  induction s0 as [|c t IH]; intros skip Hskip.
  - assert (skip = 0) as -> by (simpl in Hskip; lia). by exists [].
  - cbn [app PyStr.replace_from]. destruct skip as [|k].
    + destruct (PyStr.startswith (c :: t ++ dot_mp4) dot_mp4) eqn:Hstart.
      * assert (Hlen : 3 <= length t).
        { destruct t as [|a [|b [|d t']]]; simpl in *; try lia; exfalso;
            rewrite ?andb_false_r in Hstart; discriminate. }
        destruct (IH 3 Hlen) as [out Hout].
        exists (dot_avi ++ out). change (length dot_mp4 - 1) with 3.
        by rewrite Hout, app_assoc.
      * destruct (IH 0 ltac:(lia)) as [out Hout].
        exists (c :: out). by rewrite Hout.
    + destruct (IH k ltac:(simpl in Hskip; lia)) as [out Hout]. by exists out.
Qed.

Lemma avi_path_cases (output_path : list ascii) :
  PyStr.endswith (avi_path_of output_path) dot_avi = true /\
  (PyStr.endswith output_path dot_mp4 = true ->
   avi_path_of output_path <> output_path) /\
  (PyStr.endswith output_path dot_mp4 = false ->
   avi_path_of output_path
   = if PyStr.endswith output_path dot_avi then output_path else output_path ++ dot_avi).
Proof.
  unfold avi_path_of.
  destruct (PyStr.endswith output_path dot_mp4) eqn:Hmp4.
  - destruct (endswith_inv _ _ Hmp4) as [s0 ->].
    destruct (replace_last_mp4 s0 0 ltac:(lia)) as [out Hout].
    unfold PyStr.replace. rewrite Hout, endswith_app. cbn [negb].
    split; [apply endswith_app|]. split; [|done].
    intros _. apply endings_differ.
  - split; [|split; [done|]].
    + destruct (PyStr.endswith output_path dot_avi) eqn:Havi; cbn [negb];
        [done | apply endswith_app].
    + intros _. by destruct (PyStr.endswith output_path dot_avi).
Qed.

Lemma write_loop_map (frames : list frame) : forall acc,
  fold_left (fun written frame => written ++ [cvtColor_RGB2BGR frame]) frames acc
  = acc ++ map cvtColor_RGB2BGR frames.
Proof.
  induction frames as [|f frames IH]; intros acc; cbn [fold_left map].
  - by rewrite app_nil_r.
  - by rewrite IH, <- app_assoc.
Qed.

Lemma write_video_done env (frames : list frame) output_path file :
  _write_video env frames output_path = Done file ->
  file_frames file = map cvtColor_RGB2BGR frames /\
  file_path file
  = (if PyStr.endswith output_path dot_mp4 || PyStr.endswith output_path dot_avi
     then output_path else output_path ++ dot_avi).
Proof.
  unfold _write_video. intros H.
  destruct (negb (writer_isOpened env _)); [done|].
  destruct (negb (path_exists env _)); [done|].
  assert (file = mkVideoFile
            (if PyStr.endswith output_path dot_mp4
                && negb (list_ascii_eqb (avi_path_of output_path) output_path)
             then output_path else avi_path_of output_path)
            (fold_left (fun written frame => written ++ [cvtColor_RGB2BGR frame])
               frames [])) as -> by congruence.
  cbn [file_frames file_path]. split; [by rewrite write_loop_map|].
  destruct (avi_path_cases output_path) as (_ & Hne & Hother).
  destruct (PyStr.endswith output_path dot_mp4) eqn:Hmp4; cbn [andb orb].
  - by rewrite (list_ascii_eqb_neq _ _ (Hne eq_refl)).
  - by apply Hother.
Qed.

(** X13. The name [_write_video] writes under always ends with .avi. For a
    requested name that ends with .mp4 it is another name than the
    requested one, so that the test [avi_path != output_path] before the
    renaming always holds. The finished file carries the requested name
    when that ends with .mp4 or .avi, and the requested name followed by
    .avi in every other case. *)
Theorem write_video_file_name (env : WriterEnv) (frames : list frame)
    (output_path : list ascii) :
  PyStr.endswith (avi_path_of output_path) dot_avi = true /\
  (PyStr.endswith output_path dot_mp4 = true ->
   avi_path_of output_path <> output_path) /\
  (forall file, _write_video env frames output_path = Done file ->
     file_path file
     = if PyStr.endswith output_path dot_mp4 || PyStr.endswith output_path dot_avi
       then output_path else output_path ++ dot_avi).
Proof.
  destruct (avi_path_cases output_path) as (Havi & Hne & _).
  split; [done|]. split; [done|].
  intros file H. by destruct (write_video_done env frames output_path file H).
Qed.

(** An environment in which the writer opens and the file is found. *)
Definition willing : WriterEnv := mkWriterEnv (fun _ => true) (fun _ => true).

Definition clip_mkv : list ascii := list_ascii_of_string "clip.mkv".

Lemma write_video_file_name_witness :
  file_path (mkVideoFile (clip_mkv ++ dot_avi) (map cvtColor_RGB2BGR hi_frames))
  = if PyStr.endswith clip_mkv dot_mp4 || PyStr.endswith clip_mkv dot_avi
    then clip_mkv else clip_mkv ++ dot_avi.
Proof.
  apply (proj2 (proj2 (write_video_file_name willing hi_frames clip_mkv))).
  vm_compute. reflexivity.
Defined.

(** ** [store], then [retrieve] *)

Lemma cvtColor_round_trip (f : frame) : cvtColor_BGR2RGB (cvtColor_RGB2BGR f) = f.
Proof.
  unfold cvtColor_BGR2RGB, cvtColor_RGB2BGR. rewrite map_map.
  rewrite <- (map_id f) at 2. apply map_ext. intros row.
  rewrite map_map. rewrite <- (map_id row) at 2. apply map_ext.
  by intros [[r g] b].
Qed.

Lemma cvtColor_RGB2BGR_shaped w h (f : frame) :
  shaped w h f -> shaped w h (cvtColor_RGB2BGR f).
Proof.
  intros [Hh Hrows]. split; unfold cvtColor_RGB2BGR.
  - by rewrite length_map.
  - apply Forall_map. eapply Forall_impl; [exact Hrows|].
    intros row Hrow. cbn beta in Hrow |- *. by rewrite length_map.
Qed.

Lemma store_done env (p : list byte) output_path w h ret file :
  store env p output_path w h = Done (ret, file) ->
  exists frames,
    encode_data_to_pixels (FractalEncoder_init w h) p = Ok frames /\
    _write_video env frames output_path = Done file /\
    ret = output_path.
Proof.
  unfold store. intros H.
  destruct (encode_data_to_pixels _ p) as [frames|e]; [|done].
  destruct (_write_video env frames output_path) as [file'|m] eqn:Hw; [|done].
  exists frames. split; [done|]. split; congruence.
Qed.

Lemma encode_needs_capacity w h (p : list byte) frames :
  encode_data_to_pixels (FractalEncoder_init w h) p = Ok frames -> 0 < w * h * 3.
Proof.
  unfold encode_data_to_pixels. cbn [pixels_per_frame FractalEncoder_init].
  destruct (w * h * 3) as [|n]; [done | lia].
Qed.

(** X14. What [store] wrote, [retrieve] reads back: for every payload that fits
    the length field, whenever [store] returns, [retrieve] on a capture
    that opens and hands out the frames given to the writer returns the
    payload. [retrieve] is told neither width nor height; it takes them
    from the first frame. The channel order is swapped on the way in and
    swapped back on the way out. *)
Theorem store_then_retrieve (env : WriterEnv) (p : list byte)
    (output_path : list ascii) (w h : nat) (ret : list ascii) (file : VideoFile) :
  fits32 p ->
  store env p output_path w h = Done (ret, file) ->
  retrieve (mkVideoCapture true (file_frames file)) = Ok p.
Proof.
  intros Hfit Hstore.
  destruct (store_done _ _ _ _ _ _ _ Hstore) as (frames & Henc & Hw & _).
  destruct (write_video_done _ _ _ _ Hw) as (Hframes & _).
  pose proof (encode_needs_capacity w h p frames Henc) as Hcap.
  destruct (encoded_shaped w h p Hcap) as (frames' & Henc' & Hsh & Hlen & _).
  assert (frames' = frames) as -> by congruence.
  destruct (codec_round_trip w h p Hfit Hcap) as (frames' & Henc'' & _ & Hdec).
  assert (frames' = frames) as -> by congruence.
  assert (Hne : frames <> []).
  { intros ->. pose proof (prepare_length (FractalEncoder_init w h) p Hfit) as Hl.
    simpl in Hlen. lia. }
  rewrite (retrieve_uniform_video _ w h); cbn [isOpened read_stream].
  - rewrite Hframes, map_map.
    rewrite (map_ext _ id) by apply cvtColor_round_trip.
    by rewrite map_id, Hdec.
  - done.
  - rewrite Hframes. by destruct frames.
  - nia.
  - rewrite Hframes. apply Forall_map. eapply Forall_impl; [exact Hsh|].
    intros f Hf. by apply cvtColor_RGB2BGR_shaped.
Qed.

Definition clip_mp4 : list ascii := list_ascii_of_string "clip.mp4".

Lemma store_then_retrieve_witness :
  retrieve (mkVideoCapture true (map cvtColor_RGB2BGR hi_frames)) = Ok hi.
Proof.
  apply (store_then_retrieve willing hi clip_mp4 8 8 clip_mp4
           (mkVideoFile clip_mp4 (map cvtColor_RGB2BGR hi_frames))).
  - reflexivity.
  - vm_compute. reflexivity.
Defined.

(** X15. [store] returns the name it was asked for, wherever the file is: with
    a name that ends with neither .mp4 nor .avi the file is written under
    that name followed by .avi, and the name returned is not the name of
    the file. *)
Theorem store_returns_requested_name (env : WriterEnv) (p : list byte)
    (output_path : list ascii) (w h : nat) (ret : list ascii) (file : VideoFile) :
  store env p output_path w h = Done (ret, file) ->
  ret = output_path /\
  (PyStr.endswith output_path dot_mp4 = false ->
   PyStr.endswith output_path dot_avi = false ->
   file_path file = output_path ++ dot_avi /\ file_path file <> ret).
Proof.
  intros Hstore.
  destruct (store_done _ _ _ _ _ _ _ Hstore) as (frames & _ & Hw & ->).
  split; [done|]. intros Hmp4 Havi.
  destruct (write_video_done _ _ _ _ Hw) as (_ & Hpath).
  rewrite Hmp4, Havi in Hpath. cbn [orb] in Hpath. rewrite Hpath.
  split; [done|]. intros H. apply (f_equal length) in H.
  rewrite length_app in H. simpl in H. lia.
Qed.

Lemma store_returns_requested_name_witness :
  clip_mkv = clip_mkv /\
  (PyStr.endswith clip_mkv dot_mp4 = false ->
   PyStr.endswith clip_mkv dot_avi = false ->
   file_path (mkVideoFile (clip_mkv ++ dot_avi) (map cvtColor_RGB2BGR hi_frames))
   = clip_mkv ++ dot_avi /\
   file_path (mkVideoFile (clip_mkv ++ dot_avi) (map cvtColor_RGB2BGR hi_frames))
   <> clip_mkv).
Proof.
  apply (store_returns_requested_name willing hi clip_mkv 8 8 clip_mkv
           (mkVideoFile (clip_mkv ++ dot_avi) (map cvtColor_RGB2BGR hi_frames))).
  vm_compute. reflexivity.
Defined.

(** X16. With a width or a height of zero [store] writes nothing: the frame
    generator fails in [range] with a step of zero before the first frame,
    and [store] raises an [EncodingError] that carries that message. *)
Theorem store_zero_dimension (env : WriterEnv) (p : list byte)
    (output_path : list ascii) (w h : nat) :
  w = 0 \/ h = 0 ->
  store env p output_path w h
  = EncodingError ("Failed to encode data: " ++ "range() arg 3 must not be zero").
Proof.
  intros Hzero. unfold store, encode_data_to_pixels.
  cbn [pixels_per_frame FractalEncoder_init].
  replace (w * h * 3) with 0 by (destruct Hzero; subst; lia).
  reflexivity.
Qed.

Lemma store_zero_dimension_witness :
  store willing hi clip_mp4 0 8
  = EncodingError ("Failed to encode data: " ++ "range() arg 3 must not be zero").
Proof. apply (store_zero_dimension willing hi clip_mp4 0 8). by left. Defined.

(** * The order of the frames *)

(** A frame of the encoder is the frame of its own bits. *)
Lemma bits_frame_bits w h (c : list ascii) :
  binary c -> length c <= w * h * 3 ->
  frame_bits (_bits_to_fractal_frame (FractalEncoder_init w h) c)
  = Py.ljust (w * h * 3) "0" c.
Proof.
  intros Hb Hl. pose proof (frame_round_trip w h c Hb Hl) as Hrt.
  destruct (bits_to_frame_spec w h c Hl) as [Hsh _].
  rewrite (frame_to_bits_shaped w h _ Hsh) in Hrt. congruence.
Qed.

Lemma frame_of_padded w h (c : list ascii) :
  length c <= w * h * 3 ->
  _bits_to_fractal_frame (FractalEncoder_init w h) (Py.ljust (w * h * 3) "0" c)
  = _bits_to_fractal_frame (FractalEncoder_init w h) c.
Proof.
  intros Hl. unfold _bits_to_fractal_frame. cbn [pixels_per_frame FractalEncoder_init].
  assert (Hpad : Py.ljust (w * h * 3) "0" (Py.ljust (w * h * 3) "0" c)
                 = Py.ljust (w * h * 3) "0" c).
  { apply ljust_full. unfold Py.ljust. rewrite length_app, length_replicate. lia. }
  by rewrite Hpad.
Qed.

Lemma concat_inj_fixed cap (xs ys : list (list ascii)) :
  0 < cap ->
  Forall (fun c => length c = cap) xs -> Forall (fun c => length c = cap) ys ->
  concat xs = concat ys -> xs = ys.
Proof.
  intros Hcap Hxs Hys Heq.
  assert (Hlen : length xs = length ys).
  { apply (f_equal length) in Heq.
    rewrite !(length_concat_fixed cap) in Heq by done. nia. }
  rewrite <- (chunks_of_concat cap xs Hxs), <- (chunks_of_concat cap ys Hys).
  by rewrite Heq, Hlen.
Qed.

Lemma decoded_order (p : list byte) (w h : nat) (frames perm : list frame) :
  fits32 p -> 0 < w * h * 3 ->
  encode_data_to_pixels (FractalEncoder_init w h) p = Ok frames ->
  Permutation perm frames ->
  decode_pixels_to_data (FractalEncoder_init w h) perm = Ok p ->
  perm = frames.
Proof.
  intros Hfit Hcap Henc Hperm Hdec.
  destruct (encode_structure w h p Hcap)
    as (full & last & Henc' & Hcat & Hfull & Hlast & _).
  assert (frames = map (_bits_to_fractal_frame (FractalEncoder_init w h))
                     (full ++ [last])) as -> by congruence.
  set (F := _bits_to_fractal_frame (FractalEncoder_init w h)) in *.
  set (n := length full).
  assert (Hbin : Forall (fun c => binary c /\ length c <= w * h * 3) (full ++ [last])).
  { pose proof (binary_prepare (FractalEncoder_init w h) p) as Hb.
    rewrite <- Hcat in Hb. apply Forall_app in Hb as [Hb1 Hb2].
    apply Forall_app. split.
    - apply Forall_forall. intros c Hc. split.
      + unfold binary in Hb1. rewrite Forall_concat in Hb1.
        by apply (proj1 (Forall_forall _ _) Hb1).
      + by rewrite (proj1 (Forall_forall _ _) Hfull c Hc).
    - constructor; [|constructor]. split; [done | lia]. }
  assert (Hsh : Forall (shaped w h) (map F (full ++ [last]))).
  { apply Forall_map. eapply Forall_impl; [exact Hbin|].
    intros c [_ Hc]. by destruct (bits_to_frame_spec w h c Hc). }
  assert (Hfix : Forall (fun g => F (frame_bits g) = g) (map F (full ++ [last]))).
  { apply Forall_map. eapply Forall_impl; [exact Hbin|].
    intros c [Hb Hc]. cbn beta. unfold F.
    by rewrite bits_frame_bits, frame_of_padded. }
  assert (Hsh' : Forall (shaped w h) perm) by (by rewrite Hperm).
  assert (Hfix' : Forall (fun g => F (frame_bits g) = g) perm) by (by rewrite Hperm).
  assert (Hlenp : length perm = S n).
  { rewrite (Permutation_length Hperm), length_map, length_app. simpl. lia. }
  unfold decode_pixels_to_data in Hdec.
  rewrite frames_to_bits_shaped in Hdec by done. cbn [bind] in Hdec.
  assert (Hblocks : Forall (fun c => length c = w * h * 3) (map frame_bits perm)).
  { apply Forall_map. eapply Forall_impl; [exact Hsh'|].
    intros g Hg. by apply frame_bits_length. }
  assert (Hlong : 96 <= length (flat_map frame_bits perm)).
  { rewrite flat_map_concat_map, (length_concat_fixed (w * h * 3)) by done.
    rewrite length_map, Hlenp.
    pose proof (prepare_length (FractalEncoder_init w h) p Hfit) as Hpl.
    rewrite <- Hcat, length_app, (length_concat_fixed (w * h * 3)) in Hpl by done.
    fold n in Hpl. nia. }
  destruct (accepted_prefix _ _ _ Hlong Hdec) as (_ & rest & Hbits).
  rewrite <- (take_drop n perm) in Hbits.
  rewrite flat_map_app, <- Hcat, <- app_assoc in Hbits.
  assert (Hinit : Forall (fun c => length c = w * h * 3)
                    (map frame_bits (take n perm))).
  { change (map frame_bits (take n perm)) with (frame_bits <$> take n perm).
    rewrite fmap_take. by apply Forall_take. }
  apply app_inj_1 in Hbits as [Hhead _].
  2:{ rewrite flat_map_concat_map, !(length_concat_fixed (w * h * 3)) by done.
      rewrite length_map, length_take. fold n. lia. }
  rewrite flat_map_concat_map in Hhead.
  apply (concat_inj_fixed (w * h * 3)) in Hhead; [|done..].
  assert (Htake : take n perm = map F full).
  { rewrite <- Hhead, map_map. symmetry.
    rewrite <- (map_id (take n perm)) at 2. apply map_ext_Forall.
    eapply Forall_impl; [apply Forall_take; exact Hfix'|]. by intros g Hg. }
  rewrite <- (take_drop n perm) in Hperm |- *.
  rewrite Htake, map_app in Hperm |- *.
  apply Permutation_app_inv_l in Hperm. cbn [map] in Hperm |- *.
  apply Permutation_singleton_r in Hperm. by rewrite Hperm.
Qed.

(** X17. Decode returns the payload for one order of the frames only. Given
    the frames of an Encode output in any other order, every frame still
    being there once, it does not return the payload they were encoded
    from: it raises, or returns other bytes. *)
Theorem frame_order_matters (p : list byte) (w h : nat) (frames perm : list frame) :
  fits32 p -> 0 < w * h * 3 ->
  encode_data_to_pixels (FractalEncoder_init w h) p = Ok frames ->
  Permutation perm frames -> perm <> frames ->
  decode_pixels_to_data (FractalEncoder_init w h) perm <> Ok p.
Proof.
  intros Hfit Hcap Henc Hperm Hne Hdec. apply Hne.
  by apply (decoded_order p w h frames perm).
Qed.

(** The two frames of [hi_frames_6], the second one first. *)
Definition hi_frames_6_swapped : list frame := Eval vm_compute in rev hi_frames_6.

Lemma frame_order_matters_witness :
  hi_frames_6_swapped <> hi_frames_6 /\
  decode_pixels_to_data (FractalEncoder_init 6 6) hi_frames_6_swapped <> Ok hi.
Proof.
  split; [by vm_compute|].
  apply (frame_order_matters hi 6 6 hi_frames_6 hi_frames_6_swapped).
  - reflexivity.
  - vm_compute; lia.
  - vm_compute; reflexivity.
  - apply perm_swap.
  - by vm_compute.
Defined.

(** * When [store] returns *)

(** X18. [store] returns exactly when the frame holds at least one cell, the
    video writer opens on the AVI name and the file is found after the
    writer was released; the payload plays no part in it. *)
Theorem store_returns_iff (env : WriterEnv) (p : list byte)
    (output_path : list ascii) (w h : nat) :
  (exists ret file, store env p output_path w h = Done (ret, file))
  <-> 0 < w * h /\
      writer_isOpened env (avi_path_of output_path) = true /\
      path_exists env (avi_path_of output_path) = true.
Proof.
  split.
  - intros (ret & file & H).
    destruct (store_done _ _ _ _ _ _ _ H) as (frames & Henc & Hw & _).
    pose proof (encode_needs_capacity w h p frames Henc) as Hcap.
    split; [lia|]. unfold _write_video in Hw.
    destruct (writer_isOpened env _); [|done].
    by destruct (path_exists env _).
  - intros (Hcap & Hopen & Hexists).
    destruct (encoded_shaped w h p ltac:(lia)) as (frames & Henc & _).
    unfold store, _write_video. rewrite Henc, Hopen, Hexists. cbn [negb]. eauto.
Qed.

(** * Bit strings that stop before the checksum field *)

(** X19. A string of 64 binary digits or fewer is never accepted: whatever
    it holds, [_parse_bit_string] raises a [ValueError], at the latest when it
    reads the empty checksum field with [int('', 2)]. Together with the
    header cut inside the checksum field, this places the shortest accepted
    input at 65 bits, not at the 96 bits of a header. *)
Theorem short_input_rejected self (bits : list ascii) :
  binary bits -> length bits <= 64 ->
  exists m, _parse_bit_string self bits = Err (ValueError m).
Proof.
  intros _ Hlen.
  destruct (_parse_bit_string self bits) as [d|e] eqn:H.
  - exfalso. unfold _parse_bit_string in H.
    assert (Hc : Py.slice 64 96 bits = []).
    { unfold Py.slice. by rewrite drop_ge by lia. }
    rewrite Hc in H.
    destruct (Py.range0 32 8) as [idx|]; cbn [bind] in H; [|done].
    destruct (mapM _ idx) as [got|]; cbn [bind] in H; [|done].
    destruct (negb (list_ascii_eqb got magic)); [done|].
    destruct (Py.int2 (Py.slice 32 64 bits)) as [len|]; cbn [bind] in H; [|done].
    destruct (_ <? _)%Z; [done|].
    destruct (Py.range0 _ 8) as [idx'|]; cbn [bind] in H; [|done].
    destruct (mapM _ idx') as [data_bytes|]; cbn [bind] in H; [|done].
    done.
  - pose proof (parse_value_errors_only self bits e H) as Hc.
    destruct e as [m| | |]; try done. by exists m.
Qed.

Lemma short_input_rejected_witness :
  exists m,
    _parse_bit_string (FractalEncoder_init 8 8) (magic_bits ++ replicate 32 "0"%char)
    = Err (ValueError m).
Proof.
  apply (short_input_rejected (FractalEncoder_init 8 8)
           (magic_bits ++ replicate 32 "0"%char)).
  - apply binary_app; [|apply binary_zeros].
    vm_compute. repeat (constructor; [by (left + right)|]). constructor.
  - vm_compute. lia.
Defined.
